(** * GIVA URL shortener: the storage layer ([server/storage.ts])

    A shallow embedding of [DatabaseStorage], the class behind the
    [IStorage] interface, together with the Mongoose operations it issues
    on the [urls] collection, and the properties of the short-code
    allocator and resolver.

    The collection is a list of documents in insertion (natural) order.
    Every method is a computation in a small state-and-exception monad over
    that collection; [await] is sequencing.  What a call reads from its
    environment (the clock, the fresh [ObjectId], the bytes of the random
    generator) is an explicit argument, [Env].

    The user methods of the same class and the three handlers of
    [server/routes.ts] follow, each as a function from the collection to
    an answer and the collection it leaves; then the reads, the increment
    and the handlers that use them once more, for a database that may
    reject a call. *)

From Stdlib Require Import List String Ascii ZArith NArith Bool Lia.
From Stdlib Require Import Sorted Permutation.
From Stdlib Require Import Strings.Byte.
Import ListNotations.

Local Open Scope string_scope.
Local Open Scope list_scope.
Local Open Scope Z_scope.

(** ** JavaScript values *)

Module Js.

(** A [number] holding an integer, or [NaN]. *)
Inductive number := NaN | Num (n : N).

(** [x || y] and [if (x)] on a [string | undefined]: [undefined] and the
    empty string are falsy. *)
Definition truthy (x : option string) : bool :=
  match x with
  | Some s => negb (String.eqb s "")
  | None => false
  end.

(** [x || y] with [y : string]. *)
Definition or_string (x : option string) (y : string) : string :=
  match x with
  | Some s => if truthy x then s else y
  | None => y
  end.

(** [x || null]. *)
Definition or_null (x : option string) : option string :=
  if truthy x then x else None.

Definition digit (c : ascii) : option N :=
  let n := N_of_ascii c in
  if ((48 <=? n) && (n <=? 57))%N then Some (n - 48)%N else None.

(** The leading run of decimal digits of [s], most significant first,
    accumulated on [acc]; [seen] records whether a digit was read. *)
Fixpoint digits (s : string) (seen : bool) (acc : N) : option N :=
  match s with
  | EmptyString => if seen then Some acc else None
  | String c s' =>
      match digit c with
      | Some d => digits s' true (10 * acc + d)%N
      | None => if seen then Some acc else None
      end
  end.

(** An integer as the nearest double (ties to even); exact below 2^53. *)
Definition to_double (n : N) : N :=
  if (n <? 2 ^ 53)%N then n
  else
    let e := (N.log2 n - 52)%N in
    let q := (n / 2 ^ e)%N in
    let r := (n mod 2 ^ e)%N in
    let half := (2 ^ (e - 1))%N in
    let q' := if (half <? r)%N || ((r =? half)%N && N.odd q)
              then (q + 1)%N else q in
    (q' * 2 ^ e)%N.

(** [parseInt(s)] on the hexadecimal rendering of an [ObjectId] (24
    characters of [0-9a-f]: no white space, sign or [0x] prefix): the
    leading decimal digits, [NaN] when the first character is a letter. *)
Definition parseInt (s : string) : number :=
  match digits s false 0%N with
  | Some n => Num (to_double n)
  | None => NaN
  end.

End Js.

(** ** Data model *)

(** An [ObjectId], as the string [_id.toString()] renders. *)
Definition ObjectId := string.

(** [IUrl]: a document of the [urls] collection. *)
Module IUrl.
Record t := mk {
  _id : ObjectId;
  shortCode : string;
  longUrl : string;
  customAlias : option string;   (* [None] is [null] *)
  createdAt : Z;                 (* a [Date], in milliseconds *)
  clicks : Z
}.

(** [{ $inc: { clicks: 1 } }] *)
Definition inc_clicks (d : t) : t :=
  mk (_id d) (shortCode d) (longUrl d) (customAlias d) (createdAt d)
     (clicks d + 1).
End IUrl.

(** [Url]: the record the storage interface returns. *)
Module Url.
Record t := mk {
  id : Js.number;
  shortCode : string;
  longUrl : string;
  customAlias : option string;
  createdAt : Z;
  clicks : Z
}.
End Url.

(** The object literal every [Url]-returning method builds from a document. *)
Definition toUrl (d : IUrl.t) : Url.t :=
  {| Url.id := Js.parseInt (IUrl._id d);
     Url.shortCode := IUrl.shortCode d;
     Url.longUrl := IUrl.longUrl d;
     Url.customAlias := IUrl.customAlias d;
     Url.createdAt := IUrl.createdAt d;
     Url.clicks := IUrl.clicks d |}.

(** The [urls] collection, in natural order. *)
Definition Collection := list IUrl.t.

(** The schema of [UrlModel] is declared in [server/models.ts], outside
    the files embedded here: it is a parameter of the model.
    [unique_shortCode] says whether [shortCode] carries a unique index;
    [validate] stands for the validators the schema declares. *)
Record UrlSchema := {
  unique_shortCode : bool;
  validate : IUrl.t -> bool
}.

(** Modelled from the spec: the schema of the [urls] collection, declared
    in [server/models.ts].  The persisted layout is
    [{shortCode unique, longUrl, customAlias nullable, createdAt, clicks}]:
    a unique index on [shortCode] and no further constraint. *)
Definition spec_schema : UrlSchema :=
  {| unique_shortCode := true; validate := fun _ => true |}.

(** What one call of [createShortUrl] reads from outside the collection. *)
Record Env := {
  now : Z;                 (* [new Date()] *)
  oid : ObjectId;          (* the [_id] that [new UrlModel(...)] assigns *)
  random : nat -> byte     (* the bytes the random generator hands out *)
}.

(** ** The monad of storage operations *)

Inductive Exn :=
| Error (message : string)        (* [throw new Error(message)] *)
| ValidationError                 (* a schema validator rejected [save] *)
| DuplicateKey.                   (* E11000, raised by a unique index *)

Inductive Result (A : Type) :=
| Ok (a : A)
| Throw (e : Exn).
Arguments Ok {A} a.
Arguments Throw {A} e.

Definition M (A : Type) : Type := Collection -> Result A * Collection.

Definition ret {A} (a : A) : M A := fun st => (Ok a, st).

Definition throw {A} (e : Exn) : M A := fun st => (Throw e, st).

Definition bind {A B} (m : M A) (k : A -> M B) : M B :=
  fun st =>
    match m st with
    | (Ok a, st') => k a st'
    | (Throw e, st') => (Throw e, st')
    end.

Notation "x <- m ;; k" := (bind m (fun x => k))
  (at level 61, m at next level, right associativity).
Notation "m ;;; k" := (bind m (fun _ => k))
  (at level 61, right associativity).

(** ** Mongoose operations on [UrlModel] *)

(** The operations of a database that answers.  The calls it rejects are
    added in [Faulty], further down. *)

Definition matches (shortCode : string) (d : IUrl.t) : bool :=
  String.eqb (IUrl.shortCode d) shortCode.

(** [UrlModel.findOne({ shortCode }).lean()] *)
Definition findOne (shortCode : string) : M (option IUrl.t) :=
  fun st => (Ok (find (matches shortCode) st), st).

(** The first document that matches is updated, the others are kept. *)
Fixpoint update_first (shortCode : string) (st : Collection) : Collection :=
  match st with
  | [] => []
  | d :: st' =>
      if matches shortCode d then IUrl.inc_clicks d :: st'
      else d :: update_first shortCode st'
  end.

(** [UrlModel.findOneAndUpdate({ shortCode }, { $inc: { clicks: 1 } })]:
    resolves to the document as it was, or to [null]. *)
Definition findOneAndUpdate (shortCode : string) : M (option IUrl.t) :=
  fun st => (Ok (find (matches shortCode) st), update_first shortCode st).

(** [.sort({ createdAt: -1 })]: descending; documents of equal date keep
    their natural order. *)
Fixpoint insert_desc (d : IUrl.t) (l : list IUrl.t) : list IUrl.t :=
  match l with
  | [] => [d]
  | x :: l' =>
      if IUrl.createdAt x <=? IUrl.createdAt d then d :: x :: l'
      else x :: insert_desc d l'
  end.

Definition sort_desc (l : list IUrl.t) : list IUrl.t :=
  fold_right insert_desc [] l.

(** [.limit(n)]: the cursor's limit, with MongoDB's meaning: a limit of
    [0] is equivalent to setting no limit, and a negative limit is the
    limit of its absolute value (in a single batch). *)
Definition limit (n : Z) (l : list IUrl.t) : list IUrl.t :=
  if n =? 0 then l else firstn (Z.to_nat (Z.abs n)) l.

(** [UrlModel.find({}).sort({ createdAt: -1 }).limit(n).lean()] *)
Definition find_sort_limit (n : Z) : M (list IUrl.t) :=
  fun st => (Ok (limit n (sort_desc st)), st).

(** [doc.save()] of a new document: validation, then the insert, which the
    unique indexes ([_id] always, [shortCode] when the schema says so) may
    reject. *)
Definition save (schema : UrlSchema) (doc : IUrl.t) : M IUrl.t :=
  fun st =>
    if negb (validate schema doc) then (Throw ValidationError, st)
    else if existsb (fun d => String.eqb (IUrl._id d) (IUrl._id doc)) st
    then (Throw DuplicateKey, st)
    else if unique_shortCode schema && existsb (matches (IUrl.shortCode doc)) st
    then (Throw DuplicateKey, st)
    else (Ok doc, st ++ [doc]).

(** ** nanoid *)

(** [urlAlphabet] of the [nanoid] package. *)
Definition urlAlphabet : string :=
  "useandom-26T198340PX75pxJACKVERYMINDBUSHWOLF_GQZbfghjklqvwyzrict".

(** [urlAlphabet[b & 63]] *)
Definition urlChar (b : byte) : ascii :=
  match String.get (N.to_nat (N.land (Byte.to_N b) 63)) urlAlphabet with
  | Some c => c
  | None => "000"%char
  end.

(** [nanoid(size)]: one character per random byte. *)
Definition nanoid (rnd : nat -> byte) (size : nat) : string :=
  string_of_list_ascii (map (fun i => urlChar (rnd i)) (seq 0 size)).

(** ** DatabaseStorage *)

Definition alias_in_use : Exn :=
  Error "Custom alias is already in use. Please choose a different one.".

(** [private generateShortCode(length: number = 6)] *)
Definition generateShortCode (rnd : nat -> byte) (length : option nat)
  : string :=
  nanoid rnd (match length with Some n => n | None => 6%nat end).

(** [isShortCodeAvailable(shortCode)] *)
Definition isShortCodeAvailable (shortCode : string) : M bool :=
  existingUrl <- findOne shortCode ;;
  ret (match existingUrl with Some _ => false | None => true end).

(** [createShortUrl(longUrl, customAlias?)] *)
Definition createShortUrl (schema : UrlSchema) (env : Env)
    (longUrl : string) (customAlias : option string) : M Url.t :=
  let shortCode :=
    Js.or_string customAlias (generateShortCode (random env) None) in
  (match customAlias with
   | Some alias =>
       if Js.truthy customAlias then
         isAvailable <- isShortCodeAvailable alias ;;
         if negb isAvailable then throw alias_in_use else ret tt
       else ret tt
   | None => ret tt
   end) ;;;
  let newUrl :=
    {| IUrl._id := oid env;
       IUrl.shortCode := shortCode;
       IUrl.longUrl := longUrl;
       IUrl.customAlias := Js.or_null customAlias;
       IUrl.createdAt := now env;
       IUrl.clicks := 0 |} in
  savedUrl <- save schema newUrl ;;
  ret (toUrl savedUrl).

(** [getUrlByShortCode(shortCode)]: [None] is [undefined]. *)
Definition getUrlByShortCode (shortCode : string) : M (option Url.t) :=
  url <- findOne shortCode ;;
  match url with
  | None => ret None
  | Some d => ret (Some (toUrl d))
  end.

(** [incrementUrlClicks(shortCode)] *)
Definition incrementUrlClicks (shortCode : string) : M unit :=
  findOneAndUpdate shortCode ;;;
  ret tt.

(** [getRecentUrls(limit: number = 10)]: [None] is an absent argument. *)
Definition getRecentUrls (lim : option Z) : M (list Url.t) :=
  let lim := match lim with Some n => n | None => 10 end in
  urls <- find_sort_limit lim ;;
  ret (map toUrl urls).

(** ** The methods as transitions of the collection *)

(** A call of one of the URL methods of [IStorage].  The user methods
    work on the [users] collection and never touch this one. *)
Inductive Op :=
| CreateShortUrl (env : Env) (longUrl : string) (customAlias : option string)
| GetUrlByShortCode (shortCode : string)
| IncrementUrlClicks (shortCode : string)
| GetRecentUrls (lim : option Z)
| IsShortCodeAvailable (shortCode : string).

(** The collection a call leaves behind, whether it returns or throws. *)
Definition after (schema : UrlSchema) (op : Op) (st : Collection)
  : Collection :=
  match op with
  | CreateShortUrl env longUrl customAlias =>
      snd (createShortUrl schema env longUrl customAlias st)
  | GetUrlByShortCode shortCode => snd (getUrlByShortCode shortCode st)
  | IncrementUrlClicks shortCode => snd (incrementUrlClicks shortCode st)
  | GetRecentUrls lim => snd (getRecentUrls lim st)
  | IsShortCodeAvailable shortCode => snd (isShortCodeAvailable shortCode st)
  end.

(** The collections the service can be in: it starts empty and is only
    written through the methods above. *)
Inductive reachable (schema : UrlSchema) : Collection -> Prop :=
| reachable_empty : reachable schema []
| reachable_step op st :
    reachable schema st -> reachable schema (after schema op st).

(** [incrementUrlClicks], [n] times in sequence. *)
Fixpoint incrementUrlClicks_times (n : nat) (shortCode : string) : M unit :=
  match n with
  | O => ret tt
  | S n' =>
      incrementUrlClicks shortCode ;;;
      incrementUrlClicks_times n' shortCode
  end.

(** No two documents share a [shortCode]. *)
Definition unique_shortCodes (st : Collection) : Prop :=
  NoDup (map IUrl.shortCode st).

(** [A-Za-z0-9_-] *)
Definition url_safe (c : ascii) : bool :=
  let n := N_of_ascii c in
  (((65 <=? n) && (n <=? 90)) || ((97 <=? n) && (n <=? 122)) ||
   ((48 <=? n) && (n <=? 57)) || (n =? 95) || (n =? 45))%N.

(** Most recent first. *)
Definition newer_or_equal (a b : Url.t) : Prop :=
  Url.createdAt b <= Url.createdAt a.

(** Most recent first, on documents. *)
Definition newer (a b : IUrl.t) : Prop :=
  IUrl.createdAt b <= IUrl.createdAt a.

(** The document [createShortUrl] hands to [new UrlModel]. *)
Definition newUrl (env : Env) (longUrl : string) (customAlias : option string)
  : IUrl.t :=
  {| IUrl._id := oid env;
     IUrl.shortCode :=
       Js.or_string customAlias (generateShortCode (random env) None);
     IUrl.longUrl := longUrl;
     IUrl.customAlias := Js.or_null customAlias;
     IUrl.createdAt := now env;
     IUrl.clicks := 0 |}.

(** [u] with [n] more clicks. *)
Definition clicked (n : Z) (u : Url.t) : Url.t :=
  {| Url.id := Url.id u;
     Url.shortCode := Url.shortCode u;
     Url.longUrl := Url.longUrl u;
     Url.customAlias := Url.customAlias u;
     Url.createdAt := Url.createdAt u;
     Url.clicks := Url.clicks u + n |}.

(** Sample inputs. *)
Module Sample.

Definition env1 : Env :=
  {| now := 1700000000000;
     oid := "507f1f77bcf86cd799439011";
     random := fun i => match i with
                        | 0%nat => x00 | 1%nat => xff | 2%nat => x2a
                        | _ => x41
                        end |}.

Definition env2 : Env :=
  {| now := 1700000005000;
     oid := "a07f1f77bcf86cd799439012";
     random := fun _ => x07 |}.

(** The collection after [createShortUrl("https://example.com", "promo")]
    on an empty one. *)
Definition promo : Collection :=
  after spec_schema
    (CreateShortUrl env1 "https://example.com" (Some "promo")) [].

(** Then [createShortUrl("https://example.org")]. *)
Definition two : Collection :=
  after spec_schema (CreateShortUrl env2 "https://example.org" None) promo.

(** A schema without the unique index on [shortCode]. *)
Definition plain_schema : UrlSchema :=
  {| unique_shortCode := false; validate := fun _ => true |}.

(** A call whose six random bytes differ. *)
Definition env3 : Env :=
  {| now := 1700000009000;
     oid := "65a1b2c3d4e5f60718293a4b";
     random := fun i => match i with
                        | 0%nat => x00 | 1%nat => xff | 2%nat => x2a
                        | 3%nat => x10 | 4%nat => x7b | _ => x41
                        end |}.

(** Two calls whose [_id]s differ and start with the same digits. *)
Definition env4 : Env :=
  {| now := 1700000010000;
     oid := "6543a1f77bcf86cd79943901";
     random := fun _ => x01 |}.

Definition env5 : Env :=
  {| now := 1700000011000;
     oid := "6543b2f77bcf86cd79943902";
     random := fun _ => x02 |}.

End Sample.

(** ** Sequences of calls *)

(** The collection after the calls [ops], made one after the other. *)
Definition after_all (schema : UrlSchema) (ops : list Op) (st : Collection)
  : Collection :=
  fold_left (fun st op => after schema op st) ops st.

(** Is [op] a call of [incrementUrlClicks(shortCode)]? *)
Definition increments (shortCode : string) (op : Op) : bool :=
  match op with
  | IncrementUrlClicks shortCode' => String.eqb shortCode' shortCode
  | _ => false
  end.

(** What [createShortUrl] lets a document be: an alias, kept as the code,
    or no alias and a generated code; [clicks] is a count. *)
Definition well_formed (d : IUrl.t) : Prop :=
  0 <= IUrl.clicks d /\
  match IUrl.customAlias d with
  | Some alias => alias = IUrl.shortCode d /\ alias <> ""
  | None =>
      String.length (IUrl.shortCode d) = 6%nat /\
      Forall (fun c => url_safe c = true)
             (list_ascii_of_string (IUrl.shortCode d))
  end.

(** The six low bits of a byte: [b & 63]. *)
Definition low6 (b : byte) : N := N.land (Byte.to_N b) 63.

(** ** The user methods *)

(** [IUser]: a document of the [users] collection. *)
Module IUser.
Record t := mk {
  _id : ObjectId;
  username : string;
  password : string
}.
End IUser.

(** [User]: the record the storage interface returns. *)
Module User.
Record t := mk {
  id : Js.number;
  username : string;
  password : string
}.
End User.

(** [InsertUser]: what [createUser] is given. *)
Module InsertUser.
Record t := mk {
  username : string;
  password : string
}.
End InsertUser.


Module Users.

(** The [users] collection, in natural order. *)
Definition Collection := list IUser.t.

Definition toUser (user : IUser.t) : User.t :=
  {| User.id := Js.parseInt (IUser._id user);
     User.username := IUser.username user;
     User.password := IUser.password user |}.

Definition named (username : string) (user : IUser.t) : bool :=
  String.eqb (IUser.username user) username.

(** [getUserByUsername(username)]:
    [UserModel.findOne({ username }).lean()], [None] is [undefined]. *)
Definition getUserByUsername (username : string) (users : Collection)
  : Result (option User.t) * Collection :=
  match find (named username) users with
  | None => (Ok None, users)
  | Some user => (Ok (Some (toUser user)), users)
  end.


End Users.

(** ** The HTTP routes ([server/routes.ts]) *)

Module Routes.

(** What the handlers read of a request besides its body and parameters:
    [req.protocol] and [req.get("host")], which may be [undefined]. *)
Record Request := {
  protocol : string;
  host : option string
}.

(** [`${req.protocol}://${req.get("host")}`]; an [undefined] host is
    rendered as the text [undefined]. *)
Definition baseUrl (req : Request) : string :=
  (protocol req ++ "://" ++
   match host req with Some h => h | None => "undefined" end)%string.

(** [`${baseUrl}/${shortCode}`] *)
Definition shortUrl (req : Request) (shortCode : string) : string :=
  (baseUrl req ++ "/" ++ shortCode)%string.

(** The objects handed to [res.json]. *)
Inductive Json :=
| Shortened (id : Js.number) (shortCode longUrl shortUrl : string)
            (createdAt clicks : Z)
| Message (message : string)
| Failure (message error : string)
| LongUrl (longUrl : string)
| Urls (urls : list (Url.t * string)).   (* [{ ...url, shortUrl }] *)

Record Response := {
  status : Z;
  json : Json
}.

(** What the routes take from outside [routes.ts] and [storage.ts]: the
    schema of the collection; [urlFormSchema.safeParse] of
    [@shared/schema] followed by [fromZodError], giving the validated
    [{ longUrl, customAlias }] or the message of the validation error; and
    the [message] of the exceptions Mongoose raises. *)
Record Deps (Body : Type) := {
  schema : UrlSchema;
  safeParse : Body -> string + (string * option string);
  driver_message : Exn -> string
}.
Arguments schema {Body} d.
Arguments safeParse {Body} d body.
Arguments driver_message {Body} d e.

(** [storageError.message] *)
Definition message_of {Body} (deps : Deps Body) (e : Exn) : string :=
  match e with
  | Error message => message
  | _ => driver_message deps e
  end.

(** [app.post("/api/shorten", ...)] *)
Definition post_api_shorten {Body} (deps : Deps Body) (env : Env)
    (req : Request) (body : Body) (st : Collection)
  : Response * Collection :=
  match safeParse deps body with
  | inl errorMessage =>
      ({| status := 400; json := Message errorMessage |}, st)
  | inr (longUrl, customAlias) =>
      match createShortUrl (schema deps) env longUrl customAlias st with
      | (Ok url, st') =>
          ({| status := 201;
              json := Shortened (Url.id url) (Url.shortCode url)
                        (Url.longUrl url) (shortUrl req (Url.shortCode url))
                        (Url.createdAt url) (Url.clicks url) |}, st')
      | (Throw storageError, st') =>
          ({| status := 500;
              json := Failure "Database error while creating short URL"
                        (message_of deps storageError) |}, st')
      end
  end.

(** [app.get("/api/redirect/:shortCode", ...)].  The increment is not
    awaited: the response is the one computed before it, and the collection
    is the one left once it has settled. *)
Definition get_api_redirect (shortCode : string) (st : Collection)
  : Response * Collection :=
  match getUrlByShortCode shortCode st with
  | (Ok None, st') =>
      ({| status := 404; json := Message "URL not found" |}, st')
  | (Ok (Some url), st') =>
      ({| status := 200; json := LongUrl (Url.longUrl url) |},
       snd (incrementUrlClicks shortCode st'))
  | (Throw _, st') =>
      ({| status := 500; json := Message "Server error" |}, st')
  end.

(** [app.get("/api/urls/recent", ...)] *)
Definition get_api_urls_recent (req : Request) (st : Collection)
  : Response * Collection :=
  match getRecentUrls (Some 10) st with
  | (Ok recentUrls, st') =>
      ({| status := 200;
          json := Urls (map (fun url =>
                               (url, shortUrl req (Url.shortCode url)))
                            recentUrls) |}, st')
  | (Throw _, st') =>
      ({| status := 500; json := Message "Failed to fetch recent URLs" |},
       st')
  end.

End Routes.

(** Sample inputs for the routes. *)
Module RoutesSample.

(** A body is the pair of its fields; only an empty [longUrl] is
    rejected. *)
Definition deps : Routes.Deps (string * option string) :=
  {| Routes.schema := spec_schema;
     Routes.safeParse := fun body =>
       if String.eqb (fst body) "" then inl "Validation error: Required"
       else inr body;
     Routes.driver_message := fun _ => "E11000 duplicate key error" |}.

Definition req : Routes.Request :=
  {| Routes.protocol := "https"; Routes.host := Some "giva.example" |}.

End RoutesSample.

(** ** The same code when the database may reject *)

(** Every storage method awaits [connectToDatabase()] and then its query,
    and has no [try]: when one of the two rejects, the method rejects with
    the same error.  [Db] says what the database does during one call of
    a method that issues one query; a rejected update is one the database
    did not apply. *)
Inductive Db :=
| Answers
| Rejects (e : Exn).

Module Faulty.

(** [await connectToDatabase()] and the awaited query, under [db]. *)
Definition awaiting {A} (db : Db) (m : M A) : M A :=
  match db with
  | Answers => m
  | Rejects e => throw e
  end.

Definition getUrlByShortCode (db : Db) (shortCode : string)
  : M (option Url.t) :=
  awaiting db (getUrlByShortCode shortCode).

Definition incrementUrlClicks (db : Db) (shortCode : string) : M unit :=
  awaiting db (incrementUrlClicks shortCode).

Definition getRecentUrls (db : Db) (lim : option Z) : M (list Url.t) :=
  awaiting db (getRecentUrls lim).

Definition isShortCodeAvailable (db : Db) (shortCode : string) : M bool :=
  awaiting db (isShortCodeAvailable shortCode).

Definition getUserByUsername (db : Db) (username : string)
    (users : Users.Collection)
  : Result (option User.t) * Users.Collection :=
  match db with
  | Answers => Users.getUserByUsername username users
  | Rejects e => (Throw e, users)
  end.

(** [app.get("/api/redirect/:shortCode", ...)] up to its answer: the
    answer, and the code whose increment the handler has started without
    awaiting it, if any. *)
Definition get_api_redirect (dbLookup : Db) (shortCode : string)
    (st : Collection)
  : Routes.Response * option string * Collection :=
  match getUrlByShortCode dbLookup shortCode st with
  | (Ok None, st') =>
      ({| Routes.status := 404;
          Routes.json := Routes.Message "URL not found" |}, None, st')
  | (Ok (Some url), st') =>
      ({| Routes.status := 200;
          Routes.json := Routes.LongUrl (Url.longUrl url) |},
       Some shortCode, st')
  | (Throw _, st') =>
      ({| Routes.status := 500;
          Routes.json := Routes.Message "Server error" |}, None, st')
  end.

(** [storage.incrementUrlClicks(shortCode).catch(console.error)], when the
    increment that was started settles: a rejection is logged and goes no
    further. *)
Definition settle (dbIncrement : Db) (started : option string)
    (st : Collection) : Collection :=
  match started with
  | Some shortCode => snd (incrementUrlClicks dbIncrement shortCode st)
  | None => st
  end.

(** [app.get("/api/urls/recent", ...)] *)
Definition get_api_urls_recent (db : Db) (req : Routes.Request)
    (st : Collection) : Routes.Response * Collection :=
  match getRecentUrls db (Some 10) st with
  | (Ok recentUrls, st') =>
      ({| Routes.status := 200;
          Routes.json :=
            Routes.Urls (map (fun url =>
                                (url,
                                 Routes.shortUrl req (Url.shortCode url)))
                             recentUrls) |}, st')
  | (Throw _, st') =>
      ({| Routes.status := 500;
          Routes.json := Routes.Message "Failed to fetch recent URLs" |},
       st')
  end.

(** What happens at the server, in the order it happens: a request of
    [GET /api/redirect/:shortCode] is answered, or the oldest increment
    still in flight settles. *)
Inductive Event :=
| Request (dbLookup : Db)
| Settles (dbIncrement : Db).

(** The answers given, the collection left and the number of increments
    still in flight after [events], all for the same [shortCode], starting
    with [pending] increments in flight. *)
Fixpoint serve (events : list Event) (shortCode : string)
    (st : Collection) (pending : nat)
  : list Routes.Response * Collection * nat :=
  match events with
  | [] => ([], st, pending)
  | Request dbLookup :: events' =>
      let '(res, started, st1) := get_api_redirect dbLookup shortCode st in
      let '(answers, st2, remaining) :=
        serve events' shortCode st1
          (match started with Some _ => S pending | None => pending end) in
      (res :: answers, st2, remaining)
  | Settles dbIncrement :: events' =>
      match pending with
      | O => serve events' shortCode st O
      | S pending' =>
          serve events' shortCode
            (settle dbIncrement (Some shortCode) st) pending'
      end
  end.

(** The number of increments that settle, applied, during [events]. *)
Fixpoint applied (events : list Event) (pending : nat) : nat :=
  match events with
  | [] => O
  | Request Answers :: events' => applied events' (S pending)
  | Request (Rejects _) :: events' => applied events' pending
  | Settles dbIncrement :: events' =>
      match pending with
      | O => applied events' O
      | S pending' =>
          match dbIncrement with
          | Answers => S (applied events' pending')
          | Rejects _ => applied events' pending'
          end
      end
  end.

(** The lookups of [events], in order. *)
Fixpoint lookups (events : list Event) : list Db :=
  match events with
  | [] => []
  | Request dbLookup :: events' => dbLookup :: lookups events'
  | Settles _ :: events' => lookups events'
  end.

(** The answer to a request for a code that resolves to [u]. *)
Definition answer (u : Url.t) (dbLookup : Db) : Routes.Response :=
  match dbLookup with
  | Answers =>
      {| Routes.status := 200;
         Routes.json := Routes.LongUrl (Url.longUrl u) |}
  | Rejects _ =>
      {| Routes.status := 500;
         Routes.json := Routes.Message "Server error" |}
  end.

Definition answered (dbLookup : Db) : bool :=
  match dbLookup with Answers => true | Rejects _ => false end.

End Faulty.

(** ** Lookup lemmas *)

Section Lookup.

Variable sc : string.

Lemma matches_iff d : matches sc d = true <-> IUrl.shortCode d = sc.
Proof. unfold matches. apply String.eqb_eq. Qed.

Lemma find_none_iff (st : Collection) :
  find (matches sc) st = None <-> ~ In sc (map IUrl.shortCode st).
Proof.
  induction st as [|d st IH]; simpl.
  - tauto.
  - destruct (matches sc d) eqn:E.
    + apply matches_iff in E. split; [discriminate | tauto].
    + assert (IUrl.shortCode d <> sc).
      { intro H. apply matches_iff in H. congruence. }
      tauto.
Qed.

Lemma find_some (st : Collection) d :
  find (matches sc) st = Some d -> In d st /\ IUrl.shortCode d = sc.
Proof.
  intro H. apply find_some in H. destruct H as [Hin Hm].
  apply matches_iff in Hm. auto.
Qed.

Lemma find_some_iff (st : Collection) :
  (exists d, find (matches sc) st = Some d) <->
  In sc (map IUrl.shortCode st).
Proof.
  split.
  - intros [d H]. apply find_some in H. destruct H as [Hin <-].
    now apply in_map.
  - intro H. destruct (find (matches sc) st) eqn:E; eauto.
    apply find_none_iff in E. contradiction.
Qed.

Lemma existsb_matches (st : Collection) :
  existsb (matches sc) st = true <-> In sc (map IUrl.shortCode st).
Proof.
  rewrite existsb_exists, in_map_iff. split.
  - intros [d [Hin Hm]]. apply matches_iff in Hm. eauto.
  - intros [d [Hm Hin]]. exists d. split; auto. now apply matches_iff.
Qed.

(** The first match, with what comes before and after it. *)
Lemma find_split (st : Collection) d :
  find (matches sc) st = Some d ->
  exists l1 l2, st = (l1 ++ d :: l2) /\
                find (matches sc) l1 = None.
Proof.
  induction st as [|x st IH]; simpl; [discriminate|].
  destruct (matches sc x) eqn:E.
  - intros [= ->]. exists [], st. auto.
  - intro H. destruct (IH H) as (l1 & l2 & -> & Hn).
    exists (x :: l1), l2. simpl. rewrite E. auto.
Qed.

Lemma update_first_none (st : Collection) :
  find (matches sc) st = None -> update_first sc st = st.
Proof.
  induction st as [|x st IH]; simpl; auto.
  destruct (matches sc x); [discriminate|].
  intro H. now rewrite IH.
Qed.

Lemma update_first_split (l1 l2 : Collection) d :
  find (matches sc) l1 = None -> IUrl.shortCode d = sc ->
  update_first sc (l1 ++ d :: l2) = (l1 ++ IUrl.inc_clicks d :: l2).
Proof.
  intros Hn Hd. induction l1 as [|x l1 IH]; simpl in *.
  - apply matches_iff in Hd. now rewrite Hd.
  - destruct (matches sc x); [discriminate|]. now rewrite IH.
Qed.

Lemma find_update_first (st : Collection) :
  find (matches sc) (update_first sc st) =
  option_map IUrl.inc_clicks (find (matches sc) st).
Proof.
  induction st as [|x st IH]; simpl; auto.
  destruct (matches sc x) eqn:E; simpl.
  - unfold matches in *. simpl. now rewrite E.
  - now rewrite E.
Qed.

End Lookup.

Lemma map_shortCode_update_first sc (st : Collection) :
  map IUrl.shortCode (update_first sc st) = map IUrl.shortCode st.
Proof.
  induction st as [|x st IH]; simpl; auto.
  destruct (matches sc x); simpl; congruence.
Qed.

(** ** Generated codes *)

Lemma length_string_of_list_ascii (l : list ascii) :
  String.length (string_of_list_ascii l) = List.length l.
Proof. induction l; simpl; congruence. Qed.

Lemma nanoid_length rnd size : String.length (nanoid rnd size) = size.
Proof.
  unfold nanoid.
  now rewrite length_string_of_list_ascii, length_map, length_seq.
Qed.

Lemma urlChar_safe b : url_safe (urlChar b) = true.
Proof. destruct b; vm_compute; reflexivity. Qed.

Lemma nanoid_url_safe rnd size :
  Forall (fun c => url_safe c = true) (list_ascii_of_string (nanoid rnd size)).
Proof.
  unfold nanoid. rewrite list_ascii_of_string_of_list_ascii.
  apply Forall_map, Forall_forall. intros i _. apply urlChar_safe.
Qed.

Lemma generateShortCode_nonempty rnd : generateShortCode rnd None <> "".
Proof.
  intro H. apply (f_equal String.length) in H.
  unfold generateShortCode in H. rewrite nanoid_length in H. discriminate.
Qed.

(** ** What [save] and [createShortUrl] do *)

Lemma save_ok schema doc st d st' :
  save schema doc st = (Ok d, st') ->
  d = doc /\ st' = st ++ [doc] /\
  (unique_shortCode schema = true ->
   ~ In (IUrl.shortCode doc) (map IUrl.shortCode st)).
Proof.
  unfold save.
  destruct (negb (validate schema doc)); [discriminate|].
  destruct (existsb _ st); [discriminate|].
  destruct (unique_shortCode schema) eqn:U; simpl.
  - destruct (existsb (matches (IUrl.shortCode doc)) st) eqn:E;
      [discriminate|].
    intros [= <- <-]. repeat split; auto.
    intros _ Hin. apply existsb_matches in Hin. congruence.
  - intros [= <- <-]. repeat split; auto. discriminate.
Qed.

Lemma save_throw schema doc st e st' :
  save schema doc st = (Throw e, st') -> st' = st /\ e <> alias_in_use.
Proof.
  unfold save.
  destruct (negb (validate schema doc));
    [intros [= <- <-]; split; [auto | discriminate]|].
  destruct (existsb _ st);
    [intros [= <- <-]; split; [auto | discriminate]|].
  destruct (unique_shortCode schema && _);
    [intros [= <- <-]; split; [auto | discriminate] | discriminate].
Qed.

(** Without a truthy alias no availability check is made. *)
Lemma createShortUrl_falsy schema env longUrl customAlias st :
  Js.truthy customAlias = false ->
  createShortUrl schema env longUrl customAlias st =
  (savedUrl <- save schema (newUrl env longUrl customAlias) ;;
   ret (toUrl savedUrl)) st.
Proof.
  intro H. unfold createShortUrl.
  destruct customAlias as [alias|]; [rewrite H|]; reflexivity.
Qed.

(** With an alias, the lookup decides. *)
Lemma createShortUrl_alias schema env longUrl alias st :
  alias <> "" ->
  createShortUrl schema env longUrl (Some alias) st =
  match find (matches alias) st with
  | Some _ => (Throw alias_in_use, st)
  | None =>
      (savedUrl <- save schema (newUrl env longUrl (Some alias)) ;;
       ret (toUrl savedUrl)) st
  end.
Proof.
  intro H. apply String.eqb_neq in H.
  unfold createShortUrl, Js.truthy. rewrite H. simpl.
  unfold bind at 1. unfold bind at 1.
  unfold isShortCodeAvailable, bind, findOne, ret, throw. simpl.
  destruct (find (matches alias) st); reflexivity.
Qed.

(** A successful call appended exactly the document it built. *)
Lemma createShortUrl_ok schema env longUrl customAlias st u st' :
  createShortUrl schema env longUrl customAlias st = (Ok u, st') ->
  u = toUrl (newUrl env longUrl customAlias) /\
  st' = st ++ [newUrl env longUrl customAlias] /\
  (unique_shortCode schema = true ->
   ~ In (Url.shortCode u) (map IUrl.shortCode st)).
Proof.
  assert (Hsave :
    (savedUrl <- save schema (newUrl env longUrl customAlias) ;;
     ret (toUrl savedUrl)) st = (Ok u, st') ->
    u = toUrl (newUrl env longUrl customAlias) /\
    st' = st ++ [newUrl env longUrl customAlias] /\
    (unique_shortCode schema = true ->
     ~ In (Url.shortCode u) (map IUrl.shortCode st))).
  { unfold bind, ret.
    destruct (save schema _ st) as [[d|e] st1] eqn:E; [|discriminate].
    intros [= <- <-]. apply save_ok in E. destruct E as (-> & -> & Hu).
    auto. }
  destruct (Js.truthy customAlias) eqn:T.
  - destruct customAlias as [alias|]; [|discriminate].
    assert (alias <> "") as Hne.
    { intros ->. discriminate. }
    rewrite (createShortUrl_alias _ _ _ _ _ Hne).
    destruct (find (matches alias) st); [discriminate | exact Hsave].
  - rewrite (createShortUrl_falsy _ _ _ _ _ T). exact Hsave.
Qed.

(** A call that throws wrote nothing. *)
Lemma createShortUrl_throw schema env longUrl customAlias st e st' :
  createShortUrl schema env longUrl customAlias st = (Throw e, st') ->
  st' = st.
Proof.
  assert (Hsave :
    (savedUrl <- save schema (newUrl env longUrl customAlias) ;;
     ret (toUrl savedUrl)) st = (Throw e, st') -> st' = st).
  { unfold bind, ret.
    destruct (save schema _ st) as [[d|e'] st1] eqn:E; [discriminate|].
    intros [= <- <-]. now apply save_throw in E. }
  destruct (Js.truthy customAlias) eqn:T.
  - destruct customAlias as [alias|]; [|discriminate].
    assert (alias <> "") as Hne.
    { intros ->. discriminate. }
    rewrite (createShortUrl_alias _ _ _ _ _ Hne).
    destruct (find (matches alias) st); [now intros [= <- <-] | exact Hsave].
  - rewrite (createShortUrl_falsy _ _ _ _ _ T). exact Hsave.
Qed.

(** [save] accepts a document that passes the validators and whose [_id]
    and [shortCode] are not in the collection. *)
Lemma save_returns schema doc st :
  validate schema doc = true ->
  ~ In (IUrl._id doc) (map IUrl._id st) ->
  ~ In (IUrl.shortCode doc) (map IUrl.shortCode st) ->
  save schema doc st = (Ok doc, st ++ [doc]).
Proof.
  intros Hv Hid Hsc. unfold save. rewrite Hv. simpl.
  destruct (existsb _ st) eqn:E1.
  - exfalso. apply Hid. apply existsb_exists in E1.
    destruct E1 as (d & Hin & Hd). apply String.eqb_eq in Hd.
    rewrite <- Hd. now apply in_map.
  - destruct (existsb (matches (IUrl.shortCode doc)) st) eqn:E2.
    + apply existsb_matches in E2. contradiction.
    + now rewrite andb_false_r.
Qed.

(** So [createShortUrl] returns whenever the document it builds is one
    [save] accepts. *)
Lemma createShortUrl_returns schema env longUrl customAlias st :
  validate schema (newUrl env longUrl customAlias) = true ->
  ~ In (oid env) (map IUrl._id st) ->
  ~ In (IUrl.shortCode (newUrl env longUrl customAlias))
       (map IUrl.shortCode st) ->
  createShortUrl schema env longUrl customAlias st =
  (Ok (toUrl (newUrl env longUrl customAlias)),
   st ++ [newUrl env longUrl customAlias]).
Proof.
  intros Hv Hid Hsc.
  assert (Hsave :
    (savedUrl <- save schema (newUrl env longUrl customAlias) ;;
     ret (toUrl savedUrl)) st =
    (Ok (toUrl (newUrl env longUrl customAlias)),
     st ++ [newUrl env longUrl customAlias])).
  { unfold bind. now rewrite save_returns. }
  destruct (Js.truthy customAlias) eqn:T.
  - destruct customAlias as [alias|]; [|discriminate].
    assert (alias <> "") as Hne.
    { intros ->. discriminate. }
    rewrite (createShortUrl_alias _ _ _ _ _ Hne).
    assert (Hn : find (matches alias) st = None).
    { apply find_none_iff.
      change (IUrl.shortCode (newUrl env longUrl (Some alias)))
        with (Js.or_string (Some alias)
                (generateShortCode (random env) None)) in Hsc.
      unfold Js.or_string in Hsc. now rewrite T in Hsc. }
    now rewrite Hn.
  - now rewrite (createShortUrl_falsy _ _ _ _ _ T).
Qed.

Lemma newUrl_shortCode_nonempty env longUrl customAlias :
  IUrl.shortCode (newUrl env longUrl customAlias) <> "".
Proof.
  simpl. unfold Js.or_string.
  destruct customAlias as [alias|]; [|apply generateShortCode_nonempty].
  destruct (Js.truthy (Some alias)) eqn:T;
    [|apply generateShortCode_nonempty].
  intros ->. discriminate.
Qed.

(** ** What a call does to the short codes of the collection *)

Lemma incrementUrlClicks_run sc st :
  incrementUrlClicks sc st = (Ok tt, update_first sc st).
Proof. reflexivity. Qed.

Lemma getUrlByShortCode_run sc st :
  getUrlByShortCode sc st = (Ok (option_map toUrl (find (matches sc) st)), st).
Proof.
  unfold getUrlByShortCode, bind, findOne, ret.
  destruct (find (matches sc) st); reflexivity.
Qed.

(** A call keeps the short codes as they are, or appends the code of the
    document a successful [createShortUrl] built. *)
Lemma after_shortCodes schema op st :
  map IUrl.shortCode (after schema op st) = map IUrl.shortCode st \/
  exists env longUrl customAlias,
    after schema op st = st ++ [newUrl env longUrl customAlias] /\
    (unique_shortCode schema = true ->
     ~ In (IUrl.shortCode (newUrl env longUrl customAlias))
          (map IUrl.shortCode st)).
Proof.
  destruct op as [env longUrl customAlias|sc|sc|lim|sc]; cbn [after].
  - destruct (createShortUrl schema env longUrl customAlias st)
      as [[u|e] st'] eqn:E; simpl.
    + right. exists env, longUrl, customAlias.
      apply createShortUrl_ok in E. destruct E as (-> & -> & Hu). auto.
    + left. apply createShortUrl_throw in E. now subst.
  - left. now rewrite getUrlByShortCode_run.
  - left. rewrite incrementUrlClicks_run. simpl.
    apply map_shortCode_update_first.
  - left. reflexivity.
  - left. reflexivity.
Qed.

(** No reachable collection holds the empty string as a short code. *)
Lemma reachable_nonempty schema st :
  reachable schema st -> ~ In "" (map IUrl.shortCode st).
Proof.
  induction 1 as [|op st Hr IH]; simpl; auto.
  destruct (after_shortCodes schema op st)
    as [-> | (env & longUrl & ca & -> & _)]; auto.
  rewrite map_app, in_app_iff. simpl. intros [H | [H | []]]; auto.
  now apply newUrl_shortCode_nonempty in H.
Qed.

Lemma after_unique schema op st :
  unique_shortCode schema = true ->
  unique_shortCodes st -> unique_shortCodes (after schema op st).
Proof.
  unfold unique_shortCodes. intros Hu Hnd.
  destruct (after_shortCodes schema op st)
    as [-> | (env & longUrl & ca & -> & Hfresh)]; auto.
  rewrite map_app. simpl.
  apply NoDup_app; auto.
  - constructor; [simpl; tauto | constructor].
  - intros x Hx [<- | []]. exact (Hfresh Hu Hx).
Qed.

Lemma reachable_unique schema st :
  unique_shortCode schema = true ->
  reachable schema st -> unique_shortCodes st.
Proof.
  intros Hu. induction 1 as [|op st Hr IH].
  - constructor.
  - now apply after_unique.
Qed.

(** An alias that is taken, and is not the empty string, is refused
    whatever the collection. *)
Lemma createShortUrl_taken schema env longUrl alias st :
  alias <> "" -> In alias (map IUrl.shortCode st) ->
  createShortUrl schema env longUrl (Some alias) st =
  (Throw alias_in_use, st).
Proof.
  intros Hne Hin. rewrite (createShortUrl_alias _ _ _ _ _ Hne).
  apply find_some_iff in Hin. destruct Hin as [d ->]. reflexivity.
Qed.

(** ** The claims *)

(** C1. For every [customAlias] that is the [shortCode] of a document of
    the collection, [createShortUrl(longUrl, customAlias)] throws the
    "Custom alias is already in use" error and leaves the collection as it
    was: nothing is inserted and no document changes.  This holds on every
    collection the service can reach, and on any collection at all when
    the alias is not the empty string. *)
Theorem createShortUrl_alias_conflict
    schema env longUrl customAlias (st : Collection) :
  reachable schema st \/ customAlias <> "" ->
  In customAlias (map IUrl.shortCode st) ->
  createShortUrl schema env longUrl (Some customAlias) st =
  (Throw alias_in_use, st).
Proof.
  intros Hst Hin. apply createShortUrl_taken; auto.
  destruct Hst as [Hr | Hne]; auto.
  intros ->. exact (reachable_nonempty _ _ Hr Hin).
Qed.

Lemma createShortUrl_alias_conflict_witness :
  (reachable spec_schema Sample.promo \/ "promo" <> "") /\
  In "promo" (map IUrl.shortCode Sample.promo) /\
  createShortUrl spec_schema Sample.env2 "https://example.org"
    (Some "promo") Sample.promo =
  (Throw alias_in_use, Sample.promo).
Proof.
  assert (Hr : reachable spec_schema Sample.promo).
  { apply reachable_step. apply reachable_empty. }
  assert (Hin : In "promo" (map IUrl.shortCode Sample.promo)).
  { simpl. auto. }
  split; [exact (or_introl Hr) | split; [exact Hin |]].
  exact (createShortUrl_alias_conflict spec_schema Sample.env2
           "https://example.org" "promo" Sample.promo (or_introl Hr) Hin).
Defined.

(** C2. When the schema declares [shortCode] unique, uniqueness of
    [shortCode] holds of every collection the service can reach and is
    kept by every call; and for every [longUrl] the record a call of
    [createShortUrl] without [customAlias] returns has a [shortCode] no
    document had before the call. *)
Theorem shortCode_uniqueness_invariant schema :
  unique_shortCode schema = true ->
  (forall st, reachable schema st -> unique_shortCodes st) /\
  (forall op st, unique_shortCodes st -> unique_shortCodes (after schema op st)) /\
  (forall env longUrl st u st',
      createShortUrl schema env longUrl None st = (Ok u, st') ->
      ~ In (Url.shortCode u) (map IUrl.shortCode st)).
Proof.
  intro Hu. split; [|split].
  - intros st. now apply reachable_unique.
  - intros op st. now apply after_unique.
  - intros env longUrl st u st' H.
    apply createShortUrl_ok in H. destruct H as (_ & _ & H). auto.
Qed.

Lemma shortCode_uniqueness_invariant_witness :
  unique_shortCode spec_schema = true /\
  unique_shortCodes Sample.two /\
  unique_shortCodes
    (after spec_schema (IncrementUrlClicks "promo") Sample.two) /\
  ~ In (Url.shortCode (toUrl (newUrl Sample.env2 "https://example.org" None)))
       (map IUrl.shortCode Sample.promo).
Proof.
  destruct (shortCode_uniqueness_invariant spec_schema eq_refl)
    as (Hreach & Hstep & Hfresh).
  assert (Hr : reachable spec_schema Sample.two).
  { apply reachable_step. apply reachable_step. apply reachable_empty. }
  split; [reflexivity | split; [exact (Hreach _ Hr) | split]].
  - exact (Hstep (IncrementUrlClicks "promo") _ (Hreach _ Hr)).
  - apply (Hfresh Sample.env2 "https://example.org" Sample.promo _ Sample.two).
    reflexivity.
Defined.

(** Without the unique index the generated code is not checked: a call
    whose generator repeats a stored code inserts a second document with
    it. *)
Example createShortUrl_collision_without_index :
  let st := after Sample.plain_schema
              (CreateShortUrl Sample.env2 "https://example.org" None) [] in
  let env := {| now := 1700000009000; oid := "b07f1f77bcf86cd799439013";
                random := random Sample.env2 |} in
  unique_shortCodes st /\
  ~ unique_shortCodes
      (after Sample.plain_schema
         (CreateShortUrl env "https://example.net" None) st).
Proof.
  split.
  - repeat constructor. simpl. tauto.
  - intro H. inversion H as [|x l Hnin _]. subst. apply Hnin. simpl. auto.
Qed.

(** ** Recent URLs *)

Lemma insert_desc_perm d l : Permutation (insert_desc d l) (d :: l).
Proof.
  induction l as [|x l IH]; simpl; auto.
  destruct (IUrl.createdAt x <=? IUrl.createdAt d); auto.
  rewrite IH. apply perm_swap.
Qed.

Lemma sort_desc_perm l : Permutation (sort_desc l) l.
Proof.
  induction l as [|x l IH]; simpl; auto.
  rewrite insert_desc_perm. now constructor.
Qed.

Lemma insert_desc_sorted d l :
  StronglySorted newer l -> StronglySorted newer (insert_desc d l).
Proof.
  induction 1 as [|x l Hs IH Hall]; simpl.
  - repeat constructor.
  - destruct (IUrl.createdAt x <=? IUrl.createdAt d) eqn:E.
    + apply Z.leb_le in E. constructor; [now constructor|].
      constructor; [exact E|].
      eapply Forall_impl; [|exact Hall]. unfold newer. intros; lia.
    + apply Z.leb_gt in E. constructor; auto.
      eapply Permutation_Forall;
        [symmetry; apply insert_desc_perm|].
      constructor; auto. unfold newer. lia.
Qed.

Lemma sort_desc_sorted l : StronglySorted newer (sort_desc l).
Proof.
  induction l as [|x l IH]; simpl; [constructor|].
  now apply insert_desc_sorted.
Qed.

Lemma firstn_sorted n l :
  StronglySorted newer l -> StronglySorted newer (firstn n l).
Proof.
  intro H. revert n. induction H as [|x l Hs IH Hall]; intro n.
  - rewrite firstn_nil. constructor.
  - destruct n; simpl; constructor; auto.
    rewrite <- (firstn_skipn n l) in Hall.
    now apply Forall_app in Hall.
Qed.

Lemma limit_sorted n l :
  StronglySorted newer l -> StronglySorted newer (limit n l).
Proof.
  unfold limit. destruct (n =? 0); auto. apply firstn_sorted.
Qed.

Lemma toUrl_sorted l :
  StronglySorted newer l -> StronglySorted newer_or_equal (map toUrl l).
Proof.
  induction 1 as [|x l Hs IH Hall]; simpl; constructor; auto.
  apply Forall_map. exact Hall.
Qed.

Lemma getRecentUrls_run lim st :
  getRecentUrls lim st =
  (Ok (map toUrl
         (limit (match lim with Some n => n | None => 10 end)
                (sort_desc st))), st).
Proof. reflexivity. Qed.

Lemma getRecentUrls_sorted lim st :
  exists l, getRecentUrls lim st = (Ok l, st) /\
            StronglySorted newer_or_equal l.
Proof.
  eexists. split; [apply getRecentUrls_run|].
  apply toUrl_sorted, limit_sorted, sort_desc_sorted.
Qed.

(** C3, as the code has it. For every collection and every [k >= 0],
    [getRecentUrls(k)] returns records of the collection ordered by
    [createdAt] descending and leaves the collection as it was, the
    records left out being no more recent than those returned; for
    [k > 0] it returns [min(k, size)] records, hence at most [k]; for
    [k = 0] the cursor has no limit and every record is returned; an
    absent argument is [10]. *)
Theorem getRecentUrls_limit (st : Collection) (k : Z) :
  0 <= k ->
  exists l,
    getRecentUrls (Some k) st = (Ok l, st) /\
    StronglySorted newer_or_equal l /\
    (exists older,
        Permutation (l ++ older) (map toUrl st) /\
        StronglySorted newer_or_equal (l ++ older)) /\
    (k = 0 /\ List.length l = List.length st \/
     0 < k /\ List.length l = Nat.min (Z.to_nat k) (List.length st) /\
     (List.length l <= Z.to_nat k)%nat) /\
    getRecentUrls None st = getRecentUrls (Some 10) st.
Proof.
  intro Hk. eexists. split; [apply getRecentUrls_run|].
  split; [apply toUrl_sorted, limit_sorted, sort_desc_sorted|].
  assert (Hlen : List.length (sort_desc st) = List.length st)
    by apply Permutation_length, sort_desc_perm.
  split; [|split; [|reflexivity]].
  - exists (map toUrl (if k =? 0 then []
                       else skipn (Z.to_nat (Z.abs k)) (sort_desc st))).
    assert (Heq : map toUrl (limit k (sort_desc st)) ++
                  map toUrl (if k =? 0 then []
                             else skipn (Z.to_nat (Z.abs k)) (sort_desc st)) =
                  map toUrl (sort_desc st)).
    { unfold limit. destruct (k =? 0).
      - simpl. apply app_nil_r.
      - now rewrite <- map_app, firstn_skipn. }
    rewrite Heq. split.
    + apply Permutation_map, sort_desc_perm.
    + apply toUrl_sorted, sort_desc_sorted.
  - rewrite length_map. unfold limit. destruct (k =? 0) eqn:E.
    + apply Z.eqb_eq in E. left. auto.
    + apply Z.eqb_neq in E. right. rewrite length_firstn, Hlen.
      rewrite Z.abs_eq by lia. split; [lia|]. split; [reflexivity|].
      apply Nat.le_min_l.
Qed.

Lemma getRecentUrls_limit_witness :
  0 <= 1 /\
  exists l,
    getRecentUrls (Some 1) Sample.two = (Ok l, Sample.two) /\
    StronglySorted newer_or_equal l /\
    (exists older,
        Permutation (l ++ older) (map toUrl Sample.two) /\
        StronglySorted newer_or_equal (l ++ older)) /\
    (1 = 0 /\ List.length l = List.length Sample.two \/
     0 < 1 /\ List.length l = Nat.min (Z.to_nat 1) (List.length Sample.two) /\
     (List.length l <= Z.to_nat 1)%nat) /\
    getRecentUrls None Sample.two = getRecentUrls (Some 10) Sample.two.
Proof.
  split; [lia|]. apply (getRecentUrls_limit Sample.two 1). lia.
Defined.

(** C3 as stated fails at [k = 0]: on a collection of one document
    [getRecentUrls(0)] returns that document, not an empty sequence. *)
Lemma getRecentUrls_zero_counterexample :
  exists u,
    getRecentUrls (Some 0) Sample.promo = (Ok [u], Sample.promo) /\
    ~ (List.length [u] <= Z.to_nat 0)%nat /\
    [u] <> [].
Proof.
  eexists. split; [reflexivity|]. split; [simpl; lia | discriminate].
Qed.

(** ** Click counting *)

Lemma incrementUrlClicks_times_run n sc st :
  incrementUrlClicks_times n sc st = (Ok tt, Nat.iter n (update_first sc) st).
Proof.
  revert st. induction n as [|n IH]; intro st; simpl; [reflexivity|].
  unfold bind at 1. rewrite incrementUrlClicks_run, IH.
  now rewrite <- Nat.iter_succ_r.
Qed.

Lemma find_iter_update_first n sc st :
  find (matches sc) (Nat.iter n (update_first sc) st) =
  option_map (Nat.iter n IUrl.inc_clicks) (find (matches sc) st).
Proof.
  induction n as [|n IH]; simpl.
  - now destruct (find (matches sc) st).
  - rewrite find_update_first, IH. now destruct (find (matches sc) st).
Qed.

Lemma toUrl_iter_inc_clicks n d :
  toUrl (Nat.iter n IUrl.inc_clicks d) = clicked (Z.of_nat n) (toUrl d).
Proof.
  induction n as [|n IH].
  - destruct d. unfold clicked, toUrl. simpl. now rewrite Z.add_0_r.
  - rewrite Nat2Z.inj_succ. simpl Nat.iter.
    unfold toUrl, IUrl.inc_clicks in *. unfold clicked in *. simpl in *.
    injection IH as H1 H2 H3 H4 H5 H6.
    rewrite H1, H2, H3, H4, H5, H6. f_equal. lia.
Qed.

(** C4. When [shortCode] is the code of a document, [N] calls of
    [incrementUrlClicks(shortCode)] in sequence all return and
    [getUrlByShortCode] then shows the same record with [clicks] larger by
    exactly [N]; when no document has that code, the call returns without
    an error and the collection is as it was. *)
Theorem incrementUrlClicks_counts shortCode (st : Collection) :
  (In shortCode (map IUrl.shortCode st) ->
   exists u,
     getUrlByShortCode shortCode st = (Ok (Some u), st) /\
     forall N, exists st',
       incrementUrlClicks_times N shortCode st = (Ok tt, st') /\
       getUrlByShortCode shortCode st' =
       (Ok (Some (clicked (Z.of_nat N) u)), st')) /\
  (~ In shortCode (map IUrl.shortCode st) ->
   incrementUrlClicks shortCode st = (Ok tt, st)).
Proof.
  split.
  - intro Hin. apply find_some_iff in Hin. destruct Hin as [d Hd].
    exists (toUrl d). split.
    + rewrite getUrlByShortCode_run, Hd. reflexivity.
    + intro N. eexists. split; [apply incrementUrlClicks_times_run|].
      rewrite getUrlByShortCode_run, find_iter_update_first, Hd. simpl.
      now rewrite toUrl_iter_inc_clicks.
  - intro Hnin. apply find_none_iff in Hnin.
    rewrite incrementUrlClicks_run. now rewrite update_first_none.
Qed.

Lemma incrementUrlClicks_counts_witness :
  (In "promo" (map IUrl.shortCode Sample.two) /\
   exists u,
     getUrlByShortCode "promo" Sample.two = (Ok (Some u), Sample.two) /\
     forall N, exists st',
       incrementUrlClicks_times N "promo" Sample.two = (Ok tt, st') /\
       getUrlByShortCode "promo" st' =
       (Ok (Some (clicked (Z.of_nat N) u)), st')) /\
  (~ In "Promo" (map IUrl.shortCode Sample.two) /\
   incrementUrlClicks "Promo" Sample.two = (Ok tt, Sample.two)).
Proof.
  assert (Hin : In "promo" (map IUrl.shortCode Sample.two)).
  { simpl. auto. }
  assert (Hnin : ~ In "Promo" (map IUrl.shortCode Sample.two)).
  { simpl. intros [H | [H | []]]; discriminate. }
  split; (split; [assumption|]).
  - exact (proj1 (incrementUrlClicks_counts "promo" Sample.two) Hin).
  - exact (proj2 (incrementUrlClicks_counts "Promo" Sample.two) Hnin).
Defined.

(** The scenario of the specification: three clicks on a fresh record. *)
Example three_clicks :
  exists st',
    incrementUrlClicks_times 3 "promo" Sample.promo = (Ok tt, st') /\
    option_map Url.clicks (match getUrlByShortCode "promo" st' with
                           | (Ok r, _) => r
                           | _ => None
                           end) = Some 3.
Proof. eexists. split; reflexivity. Qed.

(** C10. [incrementUrlClicks(shortCode)] returns, and either leaves the
    collection as it was or replaces one document whose code is
    [shortCode], at its place, by a document that differs from it in
    [clicks] only; every other document is as before. *)
Theorem incrementUrlClicks_frame shortCode (st : Collection) :
  exists st',
    incrementUrlClicks shortCode st = (Ok tt, st') /\
    (st' = st \/
     exists before d d' rest,
       st = before ++ d :: rest /\
       st' = before ++ d' :: rest /\
       IUrl.shortCode d = shortCode /\
       IUrl._id d' = IUrl._id d /\
       IUrl.shortCode d' = IUrl.shortCode d /\
       IUrl.longUrl d' = IUrl.longUrl d /\
       IUrl.customAlias d' = IUrl.customAlias d /\
       IUrl.createdAt d' = IUrl.createdAt d /\
       IUrl.clicks d' = IUrl.clicks d + 1).
Proof.
  eexists. split; [apply incrementUrlClicks_run|].
  destruct (find (matches shortCode) st) as [d|] eqn:E.
  - right. destruct (find_split _ _ _ E) as (l1 & l2 & -> & Hn).
    apply find_some in E. destruct E as [_ Hd].
    exists l1, d, (IUrl.inc_clicks d), l2.
    rewrite update_first_split by auto. repeat split; auto.
  - left. now apply update_first_none.
Qed.

(** ** The alphabet and the random bytes *)

Lemma low6_lt b : (low6 b < 64)%N.
Proof. destruct b; vm_compute; reflexivity. Qed.

Lemma urlAlphabet_distinct i j :
  (i < 64)%nat -> (j < 64)%nat ->
  String.get i urlAlphabet = String.get j urlAlphabet -> i = j.
Proof.
  intros Hi Hj H.
  assert (Hall :
    forallb (fun i => forallb (fun j =>
      match String.get i urlAlphabet, String.get j urlAlphabet with
      | Some a, Some b => implb (Ascii.eqb a b) (Nat.eqb i j)
      | _, _ => false
      end) (seq 0 64)) (seq 0 64) = true) by (vm_compute; reflexivity).
  rewrite forallb_forall in Hall.
  assert (Hi' : In i (seq 0 64)) by (apply in_seq; lia).
  assert (Hj' : In j (seq 0 64)) by (apply in_seq; lia).
  specialize (Hall i Hi'). rewrite forallb_forall in Hall.
  specialize (Hall j Hj'). rewrite H in Hall.
  destruct (String.get j urlAlphabet) as [c|]; [|discriminate].
  rewrite Ascii.eqb_refl in Hall. simpl in Hall.
  now apply Nat.eqb_eq.
Qed.

Lemma urlChar_low6 b1 b2 : urlChar b1 = urlChar b2 <-> low6 b1 = low6 b2.
Proof.
  split.
  - intro H.
    assert (H1 : (N.to_nat (low6 b1) < 64)%nat)
      by (pose proof (low6_lt b1); lia).
    assert (H2 : (N.to_nat (low6 b2) < 64)%nat)
      by (pose proof (low6_lt b2); lia).
    apply N2Nat.inj. apply urlAlphabet_distinct; auto.
    unfold urlChar in H. fold (low6 b1) in H. fold (low6 b2) in H.
    assert (Hget : forall i, (i < 64)%nat ->
                     exists c, String.get i urlAlphabet = Some c).
    { intros i Hi.
      destruct (String.get i urlAlphabet) as [c|] eqn:E; eauto.
      exfalso.
      assert (Hall : forallb (fun i =>
                match String.get i urlAlphabet with
                | Some _ => true | None => false end) (seq 0 64) = true)
        by (vm_compute; reflexivity).
      rewrite forallb_forall in Hall.
      assert (Hin : In i (seq 0 64)) by (apply in_seq; lia).
      specialize (Hall i Hin). rewrite E in Hall. discriminate. }
    destruct (Hget _ H1) as [c1 E1]. destruct (Hget _ H2) as [c2 E2].
    rewrite E1, E2 in *. congruence.
  - intro H. unfold urlChar. fold (low6 b1). fold (low6 b2). now rewrite H.
Qed.

Lemma string_of_list_ascii_inj l1 l2 :
  string_of_list_ascii l1 = string_of_list_ascii l2 -> l1 = l2.
Proof.
  intro H. apply (f_equal list_ascii_of_string) in H.
  now rewrite !list_ascii_of_string_of_list_ascii in H.
Qed.

Lemma urlAlphabet_get b :
  String.get (N.to_nat (low6 b)) urlAlphabet = Some (urlChar b).
Proof. destruct b; vm_compute; reflexivity. Qed.

Lemma get_string_of_list_ascii l i :
  String.get i (string_of_list_ascii l) = nth_error l i.
Proof. revert i. induction l as [|c l IH]; destruct i; simpl; auto. Qed.

(** Character [i] of the code is the alphabet's character at the six low
    bits of random byte [i]. *)
Lemma nanoid_get rnd size i :
  (i < size)%nat ->
  String.get i (nanoid rnd size) =
  String.get (N.to_nat (low6 (rnd i))) urlAlphabet.
Proof.
  intro Hi. unfold nanoid.
  rewrite get_string_of_list_ascii, urlAlphabet_get, nth_error_map.
  rewrite (nth_error_nth' (seq 0 size) 0%nat) by (rewrite length_seq; lia).
  rewrite seq_nth by lia. reflexivity.
Qed.

Lemma nanoid_low6 r1 r2 size :
  nanoid r1 size = nanoid r2 size <->
  forall i, (i < size)%nat -> low6 (r1 i) = low6 (r2 i).
Proof.
  unfold nanoid. split.
  - intros H i Hi. apply string_of_list_ascii_inj in H.
    apply urlChar_low6.
    apply (proj1 map_ext_in_iff H). apply in_seq. lia.
  - intro H. f_equal. apply map_ext_in. intros i Hi.
    apply in_seq in Hi. apply urlChar_low6, H. lia.
Qed.

(** [save] accepts a document that passes the validators, whose [_id] is
    new and whose [shortCode] is new or not indexed. *)
Lemma save_accepts schema doc st :
  validate schema doc = true ->
  ~ In (IUrl._id doc) (map IUrl._id st) ->
  unique_shortCode schema = false \/
  ~ In (IUrl.shortCode doc) (map IUrl.shortCode st) ->
  save schema doc st = (Ok doc, st ++ [doc]).
Proof.
  intros Hv Hid Hsc. unfold save. rewrite Hv. simpl.
  destruct (existsb _ st) eqn:E1.
  - exfalso. apply Hid. apply existsb_exists in E1.
    destruct E1 as (d & Hin & Hd). apply String.eqb_eq in Hd.
    rewrite <- Hd. now apply in_map.
  - destruct Hsc as [Hu | Hn].
    + now rewrite Hu.
    + destruct (existsb (matches (IUrl.shortCode doc)) st) eqn:E2.
      * apply existsb_matches in E2. contradiction.
      * now rewrite andb_false_r.
Qed.

(** Without a truthy alias, [createShortUrl] returns whenever [save]
    accepts the document it builds. *)
Lemma createShortUrl_falsy_returns schema env longUrl customAlias st :
  Js.truthy customAlias = false ->
  validate schema (newUrl env longUrl customAlias) = true ->
  ~ In (oid env) (map IUrl._id st) ->
  unique_shortCode schema = false \/
  ~ In (generateShortCode (random env) None) (map IUrl.shortCode st) ->
  createShortUrl schema env longUrl customAlias st =
  (Ok (toUrl (newUrl env longUrl customAlias)),
   st ++ [newUrl env longUrl customAlias]).
Proof.
  intros T Hv Hid Hsc. rewrite (createShortUrl_falsy _ _ _ _ _ T).
  unfold bind. rewrite save_accepts; auto.
  change (IUrl.shortCode (newUrl env longUrl customAlias))
    with (Js.or_string customAlias (generateShortCode (random env) None)).
  unfold Js.or_string. destruct customAlias as [alias|]; auto.
  now rewrite T.
Qed.

(** ** Creation *)

(** C5. A call of [createShortUrl] without [customAlias] returns whenever
    [save] accepts the document.  Whenever it returns, the code it returns
    is the one of the document it stored, six characters long, each from
    [A-Za-z0-9_-]; character [i] is the alphabet's character at the six
    low bits of byte [i] of the random generator, so that two calls
    return the same code exactly when their six bytes agree on those
    bits. *)
Theorem createShortUrl_generated_code
    schema env longUrl (st : Collection) :
  (validate schema (newUrl env longUrl None) = true ->
   ~ In (oid env) (map IUrl._id st) ->
   unique_shortCode schema = false \/
   ~ In (generateShortCode (random env) None) (map IUrl.shortCode st) ->
   exists u d, createShortUrl schema env longUrl None st = (Ok u, st ++ [d])) /\
  (forall u st',
      createShortUrl schema env longUrl None st = (Ok u, st') ->
      Url.shortCode u = generateShortCode (random env) None /\
      String.length (Url.shortCode u) = 6%nat /\
      (forall i, (i < 6)%nat ->
                 String.get i (Url.shortCode u) =
                 String.get (N.to_nat (low6 (random env i))) urlAlphabet) /\
      Forall (fun c => url_safe c = true)
             (list_ascii_of_string (Url.shortCode u)) /\
      (exists d, st' = st ++ [d] /\ IUrl.shortCode d = Url.shortCode u) /\
      (forall env' longUrl' st0 u' st0',
          createShortUrl schema env' longUrl' None st0 = (Ok u', st0') ->
          (Url.shortCode u = Url.shortCode u' <->
           forall i, (i < 6)%nat ->
                     low6 (random env i) = low6 (random env' i)))).
Proof.
  split.
  - intros Hv Hid Hsc. eexists. eexists.
    now apply createShortUrl_falsy_returns.
  - intros u st' H. apply createShortUrl_ok in H. destruct H as (-> & -> & _).
    split; [reflexivity|]. split; [apply nanoid_length|].
    split; [intros i Hi; now apply nanoid_get|].
    split; [apply nanoid_url_safe|].
    split; [eexists; split; reflexivity|].
    intros env' longUrl' st0 u' st0' H'.
    apply createShortUrl_ok in H'. destruct H' as (-> & _ & _).
    apply nanoid_low6.
Qed.

Lemma createShortUrl_generated_code_witness :
  validate spec_schema (newUrl Sample.env3 "https://example.net" None) = true /\
  ~ In (oid Sample.env3) (map IUrl._id Sample.two) /\
  ~ In (generateShortCode (random Sample.env3) None)
       (map IUrl.shortCode Sample.two) /\
  exists u st',
    createShortUrl spec_schema Sample.env3 "https://example.net" None
      Sample.two = (Ok u, st') /\
    Url.shortCode u = "utL4zs" /\
    String.get 2 (Url.shortCode u) = String.get 42 urlAlphabet.
Proof.
  assert (Hid : ~ In (oid Sample.env3) (map IUrl._id Sample.two)).
  { simpl. intros [H | [H | []]]; discriminate. }
  assert (Hsc : ~ In (generateShortCode (random Sample.env3) None)
                     (map IUrl.shortCode Sample.two)).
  { simpl. intros [H | [H | []]]; discriminate. }
  split; [reflexivity | split; [exact Hid | split; [exact Hsc|]]].
  destruct (createShortUrl_generated_code spec_schema Sample.env3
              "https://example.net" Sample.two) as [Hret Hcode].
  destruct (Hret eq_refl Hid (or_intror Hsc)) as (u & d & Hu).
  destruct (Hcode u _ Hu) as (Hc & _ & Hget & _).
  exists u. eexists. split; [exact Hu|]. split.
  - rewrite Hc. reflexivity.
  - apply Hget. lia.
Defined.

(** Whenever [createShortUrl] returns, the collection is the one
    before the call followed by exactly one new document, with
    [clicks = 0], [createdAt] the date read during the call, the [longUrl]
    given and the [_id] assigned to it; and the record returned is that
    document, field by field, its [id] being [parseInt] of the [_id]. *)
Theorem createShortUrl_persists
    schema env longUrl customAlias (st : Collection) u st' :
  createShortUrl schema env longUrl customAlias st = (Ok u, st') ->
  exists d,
    st' = st ++ [d] /\
    IUrl.clicks d = 0 /\
    IUrl.createdAt d = now env /\
    IUrl.longUrl d = longUrl /\
    IUrl._id d = oid env /\
    u = toUrl d /\
    Url.id u = Js.parseInt (IUrl._id d) /\
    Url.shortCode u = IUrl.shortCode d /\
    Url.longUrl u = longUrl /\
    Url.customAlias u = IUrl.customAlias d /\
    Url.createdAt u = now env /\
    Url.clicks u = 0.
Proof.
  intro H. apply createShortUrl_ok in H. destruct H as (-> & -> & _).
  exists (newUrl env longUrl customAlias). repeat split.
Qed.

Lemma createShortUrl_persists_witness :
  createShortUrl spec_schema Sample.env1 "https://example.com"
    (Some "promo") [] =
  (Ok (toUrl (newUrl Sample.env1 "https://example.com" (Some "promo"))),
   Sample.promo) /\
  exists d,
    Sample.promo = [] ++ [d] /\
    IUrl.clicks d = 0 /\
    IUrl.createdAt d = 1700000000000 /\
    IUrl.shortCode d = "promo" /\
    Url.id (toUrl d) = Js.Num 507.
Proof.
  assert (H : createShortUrl spec_schema Sample.env1 "https://example.com"
                (Some "promo") [] =
              (Ok (toUrl (newUrl Sample.env1 "https://example.com"
                            (Some "promo"))),
               Sample.promo)) by reflexivity.
  split; [exact H|].
  destruct (createShortUrl_persists _ _ _ _ _ _ _ H)
    as (d & Hst & Hc & Ht & _ & Hid & Hu & _).
  exists d. split; [exact Hst|]. split; [exact Hc|]. split; [exact Ht|].
  apply app_inj_tail in Hst. destruct Hst as [_ <-].
  split; reflexivity.
Defined.

(** C6. The [id] of the record [createShortUrl] returns is not the
    identifier assigned to the document.  Two calls that stored documents
    with different [_id]s both returned [id] 6543, the decimal digits
    their [_id]s start with; and a call whose [_id] starts with a letter
    returned [NaN]. *)
Lemma createShortUrl_id_not_assigned :
  (exists u1 st1 u2 st2,
      createShortUrl spec_schema Sample.env4 "https://example.net/a" None [] =
      (Ok u1, st1) /\
      createShortUrl spec_schema Sample.env5 "https://example.net/b" None st1 =
      (Ok u2, st2) /\
      map IUrl._id st2 =
      ["6543a1f77bcf86cd79943901"; "6543b2f77bcf86cd79943902"] /\
      Url.shortCode u1 <> Url.shortCode u2 /\
      Url.id u1 = Js.Num 6543 /\
      Url.id u2 = Js.Num 6543) /\
  (exists u st,
      createShortUrl spec_schema Sample.env2 "https://example.org" None
        Sample.promo = (Ok u, st) /\
      map IUrl._id st =
      ["507f1f77bcf86cd799439011"; "a07f1f77bcf86cd799439012"] /\
      Url.id u = Js.NaN).
Proof.
  split.
  - exists (toUrl (newUrl Sample.env4 "https://example.net/a" None)),
           [newUrl Sample.env4 "https://example.net/a" None],
           (toUrl (newUrl Sample.env5 "https://example.net/b" None)),
           [newUrl Sample.env4 "https://example.net/a" None;
            newUrl Sample.env5 "https://example.net/b" None].
    split; [reflexivity|]. split; [reflexivity|]. split; [reflexivity|].
    split; [discriminate|]. split; reflexivity.
  - exists (toUrl (newUrl Sample.env2 "https://example.org" None)),
           Sample.two.
    split; [reflexivity|]. split; reflexivity.
Qed.

(** ** Lookup *)


(** The lookup is case-sensitive. *)
Example getUrlByShortCode_exact :
  getUrlByShortCode "Promo" Sample.promo = (Ok None, Sample.promo) /\
  exists u, getUrlByShortCode "promo" Sample.promo =
            (Ok (Some u), Sample.promo).
Proof. split; [reflexivity | eexists; reflexivity]. Qed.

(** C8. [getUrlByShortCode] leaves the collection as it was, and two calls
    in a row with the same [shortCode] return the same result. *)
Theorem getUrlByShortCode_pure shortCode (st : Collection) :
  exists r,
    getUrlByShortCode shortCode st = (Ok r, st) /\
    (r1 <- getUrlByShortCode shortCode ;;
     r2 <- getUrlByShortCode shortCode ;;
     ret (r1, r2)) st = (Ok (r, r), st).
Proof.
  eexists. split; [apply getUrlByShortCode_run|].
  unfold bind. rewrite !getUrlByShortCode_run. reflexivity.
Qed.

(** ** The empty alias *)

(** C9. [createShortUrl(longUrl, "")] is [createShortUrl(longUrl)]: it
    never throws the alias error, also when a document has the empty
    code.  It returns whenever [save] accepts the document, and then it
    has stored and returned the six-character code generated from the
    random bytes, not the empty string, with [customAlias] stored as
    [null]; when it throws, nothing is written. *)
Theorem createShortUrl_empty_alias schema env longUrl (st : Collection) :
  createShortUrl schema env longUrl (Some "") st =
  createShortUrl schema env longUrl None st /\
  fst (createShortUrl schema env longUrl (Some "") st) <> Throw alias_in_use /\
  (validate schema (newUrl env longUrl (Some "")) = true ->
   ~ In (oid env) (map IUrl._id st) ->
   unique_shortCode schema = false \/
   ~ In (generateShortCode (random env) None) (map IUrl.shortCode st) ->
   exists u d,
     createShortUrl schema env longUrl (Some "") st = (Ok u, st ++ [d])) /\
  match createShortUrl schema env longUrl (Some "") st with
  | (Ok u, st') =>
      Url.shortCode u = generateShortCode (random env) None /\
      String.length (Url.shortCode u) = 6%nat /\
      (forall i, (i < 6)%nat ->
                 String.get i (Url.shortCode u) =
                 String.get (N.to_nat (low6 (random env i))) urlAlphabet) /\
      Url.shortCode u <> "" /\
      Url.customAlias u = None /\
      exists d, st' = st ++ [d] /\
                u = toUrl d /\
                IUrl.shortCode d = Url.shortCode u /\
                IUrl.customAlias d = None
  | (Throw _, st') => st' = st
  end.
Proof.
  assert (Heq : createShortUrl schema env longUrl (Some "") st =
                createShortUrl schema env longUrl None st) by reflexivity.
  split; [exact Heq|].
  assert (Hret :
    validate schema (newUrl env longUrl (Some "")) = true ->
    ~ In (oid env) (map IUrl._id st) ->
    unique_shortCode schema = false \/
    ~ In (generateShortCode (random env) None) (map IUrl.shortCode st) ->
    exists u d,
      createShortUrl schema env longUrl (Some "") st = (Ok u, st ++ [d])).
  { intros Hv Hid Hsc. eexists. eexists.
    now apply createShortUrl_falsy_returns. }
  rewrite Heq in *.
  destruct (createShortUrl schema env longUrl None st) as [[u|e] st'] eqn:E.
  - split; [discriminate|]. split; [exact Hret|].
    apply createShortUrl_ok in E. destruct E as (-> & -> & _).
    split; [reflexivity|]. split; [apply nanoid_length|].
    split; [intros i Hi; now apply nanoid_get|].
    split; [apply generateShortCode_nonempty|]. split; [reflexivity|].
    eexists. repeat split.
  - split; [|split; [exact Hret|]].
    + cbn [fst]. intro He. injection He as ->.
      rewrite createShortUrl_falsy in E by reflexivity.
      unfold bind, ret in E.
      destruct (save schema _ st) as [[d|e'] st1] eqn:S; [discriminate|].
      injection E as He Hs. subst e' st1.
      apply save_throw in S. now destruct S.
    + now apply createShortUrl_throw in E.
Qed.

Lemma createShortUrl_empty_alias_witness :
  validate spec_schema (newUrl Sample.env3 "https://example.net" (Some "")) =
  true /\
  ~ In (oid Sample.env3) (map IUrl._id Sample.two) /\
  ~ In (generateShortCode (random Sample.env3) None)
       (map IUrl.shortCode Sample.two) /\
  exists u d,
    createShortUrl spec_schema Sample.env3 "https://example.net" (Some "")
      Sample.two = (Ok u, Sample.two ++ [d]).
Proof.
  assert (Hid : ~ In (oid Sample.env3) (map IUrl._id Sample.two)).
  { simpl. intros [H | [H | []]]; discriminate. }
  assert (Hsc : ~ In (generateShortCode (random Sample.env3) None)
                     (map IUrl.shortCode Sample.two)).
  { simpl. intros [H | [H | []]]; discriminate. }
  split; [reflexivity | split; [exact Hid | split; [exact Hsc|]]].
  destruct (createShortUrl_empty_alias spec_schema Sample.env3
              "https://example.net" Sample.two) as (_ & _ & Hret & _).
  exact (Hret eq_refl Hid (or_intror Hsc)).
Defined.

(** The empty alias on a collection with two documents: the code stored is
    the generated one, character by character. *)
Example createShortUrl_empty_alias_stores :
  createShortUrl spec_schema Sample.env3 "https://example.net" (Some "")
    Sample.two =
  (Ok {| Url.id := Js.Num 65; Url.shortCode := "utL4zs";
         Url.longUrl := "https://example.net"; Url.customAlias := None;
         Url.createdAt := 1700000009000; Url.clicks := 0 |},
   Sample.two ++
   [{| IUrl._id := "65a1b2c3d4e5f60718293a4b"; IUrl.shortCode := "utL4zs";
       IUrl.longUrl := "https://example.net"; IUrl.customAlias := None;
       IUrl.createdAt := 1700000009000; IUrl.clicks := 0 |}]).
Proof. reflexivity. Qed.

(** On a collection that held the empty code, the empty alias would still
    not be refused. *)
Example createShortUrl_empty_alias_unchecked :
  let st := [IUrl.mk "c07f1f77bcf86cd799439014" "" "https://example.com"
                     None 1600000000000 0] in
  exists u st',
    createShortUrl Sample.plain_schema Sample.env2 "https://example.org"
      (Some "") st = (Ok u, st') /\
    Url.shortCode u = "mmmmmm".
Proof. vm_compute. eexists. eexists. split; reflexivity. Qed.

(** * Further properties of the storage layer *)

(** ** Lookups across writes *)

Lemma find_app_some {A} (f : A -> bool) l l' d :
  find f l = Some d -> find f (l ++ l') = Some d.
Proof.
  induction l as [|x l IH]; simpl; [discriminate|].
  destruct (f x); auto.
Qed.

Lemma find_app_none {A} (f : A -> bool) l l' :
  find f l = None -> find f (l ++ l') = find f l'.
Proof.
  induction l as [|x l IH]; simpl; auto.
  destruct (f x); [discriminate | auto].
Qed.

(** An increment of one code is invisible to the lookup of another. *)
Lemma find_update_first_other sc sc' (st : Collection) :
  sc <> sc' ->
  find (matches sc) (update_first sc' st) = find (matches sc) st.
Proof.
  intro Hne. induction st as [|x st IH]; simpl; auto.
  destruct (matches sc' x) eqn:E'; simpl.
  - apply matches_iff in E'.
    assert (matches sc x = false) as Hx.
    { destruct (matches sc x) eqn:E; auto.
      apply matches_iff in E. congruence. }
    unfold matches in *. simpl. now rewrite Hx.
  - destruct (matches sc x); auto.
Qed.

(** What one call does to the document a code resolves to. *)
Lemma find_after schema op sc (st : Collection) d :
  find (matches sc) st = Some d ->
  find (matches sc) (after schema op st) =
  Some (if increments sc op then IUrl.inc_clicks d else d).
Proof.
  intro Hd.
  destruct op as [env longUrl customAlias|sc'|sc'|lim|sc'];
    cbn [after increments].
  - destruct (createShortUrl schema env longUrl customAlias st)
      as [[u|e] st'] eqn:E; simpl.
    + apply createShortUrl_ok in E. destruct E as (_ & -> & _).
      now apply find_app_some.
    + apply createShortUrl_throw in E. now subst.
  - now rewrite getUrlByShortCode_run.
  - rewrite incrementUrlClicks_run. simpl.
    destruct (String.eqb sc' sc) eqn:E.
    + apply String.eqb_eq in E. subst sc'.
      now rewrite find_update_first, Hd.
    + apply String.eqb_neq in E.
      rewrite find_update_first_other by congruence. exact Hd.
  - exact Hd.
  - exact Hd.
Qed.

Lemma clicked_0 u : clicked 0 u = u.
Proof. destruct u. unfold clicked. simpl. now rewrite Z.add_0_r. Qed.

Lemma clicked_clicked a b u : clicked a (clicked b u) = clicked (b + a) u.
Proof. unfold clicked. simpl. now rewrite Z.add_assoc. Qed.

Lemma toUrl_inc_clicks d : toUrl (IUrl.inc_clicks d) = clicked 1 (toUrl d).
Proof. reflexivity. Qed.

Lemma find_after_all schema ops sc : forall (st : Collection) d,
  find (matches sc) st = Some d ->
  option_map toUrl (find (matches sc) (after_all schema ops st)) =
  Some (clicked (Z.of_nat (List.length (filter (increments sc) ops)))
          (toUrl d)).
Proof.
  induction ops as [|op ops IH]; intros st d Hd; simpl.
  - now rewrite Hd, clicked_0.
  - rewrite (IH _ _ (find_after schema op sc st d Hd)).
    destruct (increments sc op); auto.
    cbn [List.length]. rewrite Nat2Z.inj_succ, toUrl_inc_clicks.
    rewrite clicked_clicked. do 2 f_equal. lia.
Qed.

Lemma after_codes schema op sc (st : Collection) :
  In sc (map IUrl.shortCode st) ->
  In sc (map IUrl.shortCode (after schema op st)).
Proof.
  intro Hin. destruct (after_shortCodes schema op st)
    as [-> | (env & longUrl & ca & -> & _)]; auto.
  rewrite map_app, in_app_iff. auto.
Qed.

Lemma after_all_codes schema ops sc : forall (st : Collection),
  In sc (map IUrl.shortCode st) ->
  In sc (map IUrl.shortCode (after_all schema ops st)).
Proof.
  induction ops as [|op ops IH]; intros st Hin; simpl; auto.
  apply IH. now apply after_codes.
Qed.

Lemma isShortCodeAvailable_run sc st :
  isShortCodeAvailable sc st =
  (Ok (match find (matches sc) st with Some _ => false | None => true end),
   st).
Proof. reflexivity. Qed.

(** When the database answers, [isShortCodeAvailable] is [true] exactly
    when no document has the code, which is exactly when
    [getUrlByShortCode] finds nothing. *)
Lemma isShortCodeAvailable_iff shortCode (st : Collection) :
  exists b,
    isShortCodeAvailable shortCode st = (Ok b, st) /\
    (b = true <-> ~ In shortCode (map IUrl.shortCode st)) /\
    (b = true <-> getUrlByShortCode shortCode st = (Ok None, st)).
Proof.
  eexists. split; [apply isShortCodeAvailable_run|].
  rewrite getUrlByShortCode_run.
  destruct (find (matches shortCode) st) as [d|] eqn:E; simpl.
  - split; split; try discriminate.
    intro Hn. exfalso. apply Hn. apply find_some_iff. eauto.
  - apply find_none_iff in E. split; split; auto.
Qed.

(** X1. [isShortCodeAvailable(shortCode)] writes nothing.  When the
    connection or the query rejects, it rejects with the same error.  When
    the database answers, it returns [true] exactly when no document has
    that code, which is exactly when [getUrlByShortCode] returns
    [undefined]. *)
Theorem isShortCodeAvailable_answer shortCode (st : Collection) :
  (forall e,
      Faulty.isShortCodeAvailable (Rejects e) shortCode st = (Throw e, st)) /\
  exists b,
    Faulty.isShortCodeAvailable Answers shortCode st = (Ok b, st) /\
    (b = true <-> ~ In shortCode (map IUrl.shortCode st)) /\
    (b = true <->
     Faulty.getUrlByShortCode Answers shortCode st = (Ok None, st)) /\
    (b = false <->
     exists u,
       Faulty.getUrlByShortCode Answers shortCode st = (Ok (Some u), st)).
Proof.
  split; [reflexivity|].
  unfold Faulty.isShortCodeAvailable, Faulty.getUrlByShortCode,
    Faulty.awaiting.
  rewrite isShortCodeAvailable_run, getUrlByShortCode_run.
  destruct (find (matches shortCode) st) as [d|] eqn:E; simpl;
    eexists; (split; [reflexivity|]).
  - split; [|split].
    + split; [discriminate|].
      intro Hn. exfalso. apply Hn. apply find_some_iff. eauto.
    + split; discriminate.
    + split; eauto.
  - apply find_none_iff in E. split; [|split].
    + split; auto.
    + split; auto.
    + split; [discriminate|]. intros [u Hu]. discriminate.
Qed.

(** A successful call whose code could not clash stored a code that was
    not there. *)
Lemma createShortUrl_ok_fresh schema env longUrl customAlias st u st' :
  createShortUrl schema env longUrl customAlias st = (Ok u, st') ->
  unique_shortCode schema = true \/ Js.truthy customAlias = true \/
  ~ In (Url.shortCode u) (map IUrl.shortCode st) ->
  ~ In (Url.shortCode u) (map IUrl.shortCode st).
Proof.
  intros H [Hu | [Ht | Hn]]; auto.
  - apply createShortUrl_ok in H. destruct H as (_ & _ & H). auto.
  - destruct customAlias as [alias|]; [|discriminate].
    assert (alias <> "") as Hne by (intros ->; discriminate).
    pose proof H as H'. apply createShortUrl_ok in H'.
    destruct H' as (-> & _ & _).
    rewrite (createShortUrl_alias _ _ _ _ _ Hne) in H.
    destruct (find (matches alias) st) eqn:E; [discriminate|].
    apply find_none_iff in E.
    change (Url.shortCode (toUrl (newUrl env longUrl (Some alias))))
      with (Js.or_string (Some alias) (generateShortCode (random env) None)).
    unfold Js.or_string. now rewrite Ht.
Qed.

Lemma find_created schema env longUrl customAlias st u st' :
  createShortUrl schema env longUrl customAlias st = (Ok u, st') ->
  unique_shortCode schema = true \/ Js.truthy customAlias = true \/
  ~ In (Url.shortCode u) (map IUrl.shortCode st) ->
  option_map toUrl (find (matches (Url.shortCode u)) st') = Some u.
Proof.
  intros H Hc. pose proof (createShortUrl_ok_fresh _ _ _ _ _ _ _ H Hc) as Hn.
  apply createShortUrl_ok in H. destruct H as (-> & -> & _).
  apply find_none_iff in Hn.
  rewrite (find_app_none _ _ _ Hn). simpl.
  unfold matches. simpl. now rewrite String.eqb_refl.
Qed.

(** X2. Create, then look up.  After a call of [createShortUrl] that
    returned [u], and provided the code could not clash (the schema has
    the unique index, or an alias was given, or the generated code was
    unused), [getUrlByShortCode] of the returned code gives back [u] and
    the code is no longer reported available. *)
Theorem createShortUrl_then_lookup
    schema env longUrl customAlias (st : Collection) u st' :
  createShortUrl schema env longUrl customAlias st = (Ok u, st') ->
  unique_shortCode schema = true \/ Js.truthy customAlias = true \/
  ~ In (Url.shortCode u) (map IUrl.shortCode st) ->
  getUrlByShortCode (Url.shortCode u) st' = (Ok (Some u), st') /\
  isShortCodeAvailable (Url.shortCode u) st' = (Ok false, st').
Proof.
  intros H Hc. pose proof (find_created _ _ _ _ _ _ _ H Hc) as Hf.
  rewrite getUrlByShortCode_run, isShortCodeAvailable_run.
  destruct (find (matches (Url.shortCode u)) st') as [d|]; [|discriminate].
  simpl in Hf. injection Hf as <-. auto.
Qed.

Lemma createShortUrl_then_lookup_witness :
  createShortUrl spec_schema Sample.env2 "https://example.org" None
    Sample.promo =
  (Ok (toUrl (newUrl Sample.env2 "https://example.org" None)), Sample.two) /\
  unique_shortCode spec_schema = true /\
  getUrlByShortCode "mmmmmm" Sample.two =
  (Ok (Some (toUrl (newUrl Sample.env2 "https://example.org" None))),
   Sample.two).
Proof.
  assert (H : createShortUrl spec_schema Sample.env2 "https://example.org"
                None Sample.promo =
              (Ok (toUrl (newUrl Sample.env2 "https://example.org" None)),
               Sample.two)) by reflexivity.
  split; [exact H | split; [reflexivity|]].
  exact (proj1 (createShortUrl_then_lookup _ _ _ _ _ _ _ H
                  (or_introl eq_refl))).
Defined.

(** X3. A code is never freed.  Once a document has a code, after any
    sequence of calls a document still has it: it is reported unavailable,
    and when it is not the empty string [createShortUrl] refuses it as an
    alias. *)
Theorem shortCode_never_freed schema ops shortCode (st : Collection) :
  In shortCode (map IUrl.shortCode st) ->
  let st' := after_all schema ops st in
  In shortCode (map IUrl.shortCode st') /\
  isShortCodeAvailable shortCode st' = (Ok false, st') /\
  (shortCode <> "" ->
   forall env longUrl,
     createShortUrl schema env longUrl (Some shortCode) st' =
     (Throw alias_in_use, st')).
Proof.
  intros Hin st'.
  assert (Hin' : In shortCode (map IUrl.shortCode st'))
    by now apply after_all_codes.
  split; [exact Hin'|]. split.
  - rewrite isShortCodeAvailable_run.
    apply find_some_iff in Hin'. destruct Hin' as [d ->]. reflexivity.
  - intros Hne env longUrl. now apply createShortUrl_taken.
Qed.

Lemma shortCode_never_freed_witness :
  In "promo" (map IUrl.shortCode Sample.promo) /\
  let st' := after_all spec_schema
               [CreateShortUrl Sample.env2 "https://example.org" None;
                IncrementUrlClicks "promo"] Sample.promo in
  In "promo" (map IUrl.shortCode st') /\
  isShortCodeAvailable "promo" st' = (Ok false, st') /\
  ("promo" <> "" ->
   forall env longUrl,
     createShortUrl spec_schema env longUrl (Some "promo") st' =
     (Throw alias_in_use, st')).
Proof.
  assert (Hin : In "promo" (map IUrl.shortCode Sample.promo)).
  { simpl. auto. }
  split; [exact Hin|].
  exact (shortCode_never_freed spec_schema
           [CreateShortUrl Sample.env2 "https://example.org" None;
            IncrementUrlClicks "promo"] "promo" Sample.promo Hin).
Defined.

(** X4. A code keeps resolving to the same record.  If [shortCode]
    resolves to [u], then after any sequence of calls it resolves to [u]
    with [clicks] larger by exactly the number of calls of
    [incrementUrlClicks(shortCode)] in the sequence; [longUrl], [id],
    [customAlias] and [createdAt] never change. *)
Theorem resolution_stable schema ops shortCode (st : Collection) u :
  getUrlByShortCode shortCode st = (Ok (Some u), st) ->
  let st' := after_all schema ops st in
  getUrlByShortCode shortCode st' =
  (Ok (Some (clicked
               (Z.of_nat (List.length (filter (increments shortCode) ops)))
               u)), st').
Proof.
  intros H st'. rewrite getUrlByShortCode_run in H.
  destruct (find (matches shortCode) st) as [d|] eqn:Hd; [|discriminate].
  simpl in H. injection H as <-.
  rewrite getUrlByShortCode_run. unfold st'.
  now rewrite (find_after_all schema ops shortCode st d Hd).
Qed.

Lemma resolution_stable_witness :
  exists u,
    getUrlByShortCode "promo" Sample.promo = (Ok (Some u), Sample.promo) /\
    let st' := after_all spec_schema
                 [IncrementUrlClicks "promo";
                  CreateShortUrl Sample.env2 "https://example.org" None;
                  IncrementUrlClicks "mmmmmm";
                  IncrementUrlClicks "promo"] Sample.promo in
    getUrlByShortCode "promo" st' = (Ok (Some (clicked 2 u)), st').
Proof.
  eexists. split; [reflexivity|].
  exact (resolution_stable spec_schema
           [IncrementUrlClicks "promo";
            CreateShortUrl Sample.env2 "https://example.org" None;
            IncrementUrlClicks "mmmmmm";
            IncrementUrlClicks "promo"] "promo" Sample.promo _ eq_refl).
Defined.

(** ** Increments in any order *)

Lemma update_first_commute a b (st : Collection) :
  update_first a (update_first b st) = update_first b (update_first a st).
Proof.
  induction st as [|x st IH]; simpl; auto.
  destruct (matches a x) eqn:Ea, (matches b x) eqn:Eb; simpl.
  - unfold matches in *. simpl. now rewrite Ea, Eb.
  - unfold matches in *. simpl. now rewrite Ea, Eb.
  - unfold matches in *. simpl. now rewrite Ea, Eb.
  - rewrite Ea, Eb. now rewrite IH.
Qed.

(** X5. Two calls of [incrementUrlClicks] leave the same collection in
    either order, whatever the two codes. *)
Theorem incrementUrlClicks_commute a b (st : Collection) :
  (incrementUrlClicks a ;;; incrementUrlClicks b) st =
  (incrementUrlClicks b ;;; incrementUrlClicks a) st.
Proof.
  unfold bind. rewrite !incrementUrlClicks_run.
  now rewrite update_first_commute.
Qed.

(** ** The newest record *)

Lemma sort_desc_newest d (st : Collection) :
  Forall (fun x => IUrl.createdAt x < IUrl.createdAt d) st ->
  sort_desc (st ++ [d]) = d :: sort_desc st.
Proof.
  induction 1 as [|x st Hx Hall IH]; [reflexivity|].
  change (insert_desc x (sort_desc (st ++ [d])) =
          d :: insert_desc x (sort_desc st)).
  rewrite IH. cbn [insert_desc].
  destruct (IUrl.createdAt d <=? IUrl.createdAt x) eqn:E; auto.
  apply Z.leb_le in E. lia.
Qed.

Lemma limit_cons n d l : exists rest, limit n (d :: l) = d :: rest.
Proof.
  unfold limit. destruct (n =? 0) eqn:E; [eauto|].
  apply Z.eqb_neq in E.
  destruct (Z.to_nat (Z.abs n)) eqn:En; [lia|]. simpl. eauto.
Qed.

(** X6. The record just created heads the recent list.  After a call of
    [createShortUrl] that returned [u] at a date later than every
    [createdAt] of the collection, [getRecentUrls] returns [u] first,
    whatever its limit. *)
Theorem createShortUrl_heads_recent
    schema env longUrl customAlias (st : Collection) u st' lim :
  createShortUrl schema env longUrl customAlias st = (Ok u, st') ->
  Forall (fun d => IUrl.createdAt d < now env) st ->
  exists rest, getRecentUrls lim st' = (Ok (u :: rest), st').
Proof.
  intros H Hall. apply createShortUrl_ok in H. destruct H as (-> & -> & _).
  rewrite getRecentUrls_run, sort_desc_newest by exact Hall.
  destruct (limit_cons (match lim with Some n => n | None => 10 end)
              (newUrl env longUrl customAlias) (sort_desc st)) as [rest ->].
  simpl. eauto.
Qed.

Lemma createShortUrl_heads_recent_witness :
  createShortUrl spec_schema Sample.env2 "https://example.org" None
    Sample.promo =
  (Ok (toUrl (newUrl Sample.env2 "https://example.org" None)), Sample.two) /\
  Forall (fun d => IUrl.createdAt d < now Sample.env2) Sample.promo /\
  exists rest,
    getRecentUrls (Some 1) Sample.two =
    (Ok (toUrl (newUrl Sample.env2 "https://example.org" None) :: rest),
     Sample.two).
Proof.
  assert (H : createShortUrl spec_schema Sample.env2 "https://example.org"
                None Sample.promo =
              (Ok (toUrl (newUrl Sample.env2 "https://example.org" None)),
               Sample.two)) by reflexivity.
  assert (Hall : Forall (fun d => IUrl.createdAt d < now Sample.env2)
                   Sample.promo).
  { repeat constructor. }
  split; [exact H | split; [exact Hall|]].
  exact (createShortUrl_heads_recent _ _ _ _ _ _ _ (Some 1) H Hall).
Defined.

(** ** The documents the service writes *)

Lemma newUrl_well_formed env longUrl customAlias :
  well_formed (newUrl env longUrl customAlias).
Proof.
  unfold well_formed. split; [simpl; lia|].
  change (IUrl.customAlias (newUrl env longUrl customAlias))
    with (Js.or_null customAlias).
  change (IUrl.shortCode (newUrl env longUrl customAlias))
    with (Js.or_string customAlias (generateShortCode (random env) None)).
  unfold Js.or_null, Js.or_string.
  destruct (Js.truthy customAlias) eqn:T.
  - destruct customAlias as [alias|]; [|discriminate].
    split; auto. intros ->. discriminate.
  - destruct customAlias as [alias|];
      (split; [apply nanoid_length | apply nanoid_url_safe]).
Qed.

Lemma inc_clicks_well_formed d : well_formed d -> well_formed (IUrl.inc_clicks d).
Proof.
  unfold well_formed. simpl. intros [Hc Ha]. split; [lia | exact Ha].
Qed.

Lemma update_first_Forall (P : IUrl.t -> Prop) sc (st : Collection) :
  (forall d, P d -> P (IUrl.inc_clicks d)) ->
  Forall P st -> Forall P (update_first sc st).
Proof.
  intros HP. induction 1 as [|x st Hx Hall IH]; simpl; [constructor|].
  destruct (matches sc x); constructor; auto.
Qed.

Lemma after_well_formed schema op (st : Collection) :
  Forall well_formed st -> Forall well_formed (after schema op st).
Proof.
  intro Hall.
  destruct op as [env longUrl customAlias|sc|sc|lim|sc]; cbn [after].
  - destruct (createShortUrl schema env longUrl customAlias st)
      as [[u|e] st'] eqn:E; simpl.
    + apply createShortUrl_ok in E. destruct E as (_ & -> & _).
      apply Forall_app. split; auto.
      constructor; [apply newUrl_well_formed | constructor].
    + apply createShortUrl_throw in E. now subst.
  - now rewrite getUrlByShortCode_run.
  - rewrite incrementUrlClicks_run. simpl.
    apply update_first_Forall; auto. apply inc_clicks_well_formed.
  - exact Hall.
  - exact Hall.
Qed.

(** X7. Every document of every collection the service can reach has
    [clicks >= 0] and is of one of two kinds: [customAlias] is a
    non-empty string and [shortCode] is that string, or [customAlias] is
    [null] and [shortCode] is six characters of [A-Za-z0-9_-]. *)
Theorem reachable_well_formed schema (st : Collection) :
  reachable schema st -> Forall well_formed st.
Proof.
  induction 1 as [|op st Hr IH]; [constructor|].
  now apply after_well_formed.
Qed.

Lemma reachable_well_formed_witness :
  reachable spec_schema Sample.two /\ Forall well_formed Sample.two.
Proof.
  assert (Hr : reachable spec_schema Sample.two).
  { apply reachable_step. apply reachable_step. apply reachable_empty. }
  split; [exact Hr | exact (reachable_well_formed spec_schema _ Hr)].
Defined.

(** ** When creation fails *)

(** X8. [createShortUrl] throws the "alias already in use" error exactly
    when it is given a non-empty alias that is the code of a document;
    and whenever it throws, whatever the error, the collection is left as
    it was. *)
Theorem createShortUrl_failure
    schema env longUrl customAlias (st : Collection) :
  (fst (createShortUrl schema env longUrl customAlias st) =
   Throw alias_in_use <->
   exists alias,
     customAlias = Some alias /\ alias <> "" /\
     In alias (map IUrl.shortCode st)) /\
  (forall e st',
      createShortUrl schema env longUrl customAlias st = (Throw e, st') ->
      st' = st).
Proof.
  split; [|intros e st'; apply createShortUrl_throw].
  assert (Hsave : fst ((savedUrl <- save schema
                                      (newUrl env longUrl customAlias) ;;
                        ret (toUrl savedUrl)) st) <> Throw alias_in_use).
  { unfold bind, ret.
    destruct (save schema _ st) as [[d|e] st1] eqn:S; [discriminate|].
    apply save_throw in S. destruct S as [_ He].
    cbn [fst]. intro H. injection H as H. contradiction. }
  split.
  - intro H. destruct (Js.truthy customAlias) eqn:T.
    + destruct customAlias as [alias|]; [|discriminate].
      assert (alias <> "") as Hne by (intros ->; discriminate).
      exists alias. repeat split; auto.
      rewrite (createShortUrl_alias _ _ _ _ _ Hne) in H.
      destruct (find (matches alias) st) eqn:E.
      * apply find_some_iff. eauto.
      * contradiction.
    + rewrite (createShortUrl_falsy _ _ _ _ _ T) in H. contradiction.
  - intros (alias & -> & Hne & Hin).
    now rewrite createShortUrl_taken.
Qed.

(** ** Generated codes and random bytes *)

(** X9. The code [generateShortCode] returns has the length asked for (six
    by default), and two runs of the random generator give the same code
    exactly when their bytes agree, position by position over that
    length, on the six low bits. *)
Theorem generateShortCode_low6 (r1 r2 : nat -> byte) (length : option nat) :
  let n := match length with Some n => n | None => 6%nat end in
  String.length (generateShortCode r1 length) = n /\
  (generateShortCode r1 length = generateShortCode r2 length <->
   forall i, (i < n)%nat -> low6 (r1 i) = low6 (r2 i)).
Proof.
  intro n. unfold generateShortCode. fold n.
  split; [apply nanoid_length|].
  unfold nanoid. split.
  - intros H i Hi. apply string_of_list_ascii_inj in H.
    apply urlChar_low6.
    apply (proj1 map_ext_in_iff H). apply in_seq. lia.
  - intro H. f_equal. apply map_ext_in. intros i Hi.
    apply in_seq in Hi. apply urlChar_low6, H. lia.
Qed.

(** ** Users *)

Section UserLookup.

Variable name : string.

Lemma named_iff user : Users.named name user = true <-> IUser.username user = name.
Proof. unfold Users.named. apply String.eqb_eq. Qed.

Lemma find_named_none (users : Users.Collection) :
  find (Users.named name) users = None <->
  ~ In name (map IUser.username users).
Proof.
  induction users as [|x users IH]; simpl; [tauto|].
  destruct (Users.named name x) eqn:E.
  - apply named_iff in E. split; [discriminate | tauto].
  - assert (IUser.username x <> name).
    { intro H. apply named_iff in H. congruence. }
    tauto.
Qed.

End UserLookup.

(** When the database answers, [getUserByUsername] finds nothing exactly
    when no user document has the username, and otherwise a stored
    document with it. *)
Lemma getUserByUsername_lookup username (users : Users.Collection) :
  exists r,
    Users.getUserByUsername username users = (Ok r, users) /\
    match r with
    | None => ~ In username (map IUser.username users)
    | Some user =>
        exists d, In d users /\ IUser.username d = username /\
                  user = Users.toUser d /\
                  User.password user = IUser.password d
    end.
Proof.
  unfold Users.getUserByUsername.
  destruct (find (Users.named username) users) as [d|] eqn:E.
  - eexists. split; [reflexivity|]. apply List.find_some in E.
    destruct E as [Hin Hn]. apply named_iff in Hn. exists d. auto.
  - eexists. split; [reflexivity|]. now apply find_named_none.
Qed.

(** X10. [getUserByUsername(username)] writes nothing.  When the
    connection or the query rejects, it rejects with the same error.  When
    the database answers, it returns [undefined] exactly when no user
    document has that username, and otherwise the record of a stored
    document with that username, password included as stored. *)
Theorem getUserByUsername_answer username (users : Users.Collection) :
  (forall e,
      Faulty.getUserByUsername (Rejects e) username users =
      (Throw e, users)) /\
  exists r,
    Faulty.getUserByUsername Answers username users = (Ok r, users) /\
    match r with
    | None => ~ In username (map IUser.username users)
    | Some user =>
        exists d, In d users /\ IUser.username d = username /\
                  user = Users.toUser d /\
                  User.password user = IUser.password d
    end.
Proof.
  split; [reflexivity|]. apply getUserByUsername_lookup.
Qed.



(** * The routes *)

Section RoutesFacts.

Import Routes.

Context {Body : Type} (deps : Deps Body).

Lemma get_api_redirect_run sc (st : Collection) :
  get_api_redirect sc st =
  match find (matches sc) st with
  | Some d =>
      ({| status := 200; json := LongUrl (IUrl.longUrl d) |},
       update_first sc st)
  | None => ({| status := 404; json := Message "URL not found" |}, st)
  end.
Proof.
  unfold get_api_redirect. rewrite getUrlByShortCode_run.
  destruct (find (matches sc) st); reflexivity.
Qed.

Lemma post_api_shorten_run env req body (st : Collection) :
  post_api_shorten deps env req body st =
  match safeParse deps body with
  | inl errorMessage =>
      ({| status := 400; json := Message errorMessage |}, st)
  | inr (longUrl, customAlias) =>
      match createShortUrl (schema deps) env longUrl customAlias st with
      | (Ok url, st') =>
          ({| status := 201;
              json := Shortened (Url.id url) (Url.shortCode url)
                        (Url.longUrl url) (shortUrl req (Url.shortCode url))
                        (Url.createdAt url) (Url.clicks url) |}, st')
      | (Throw storageError, st') =>
          ({| status := 500;
              json := Failure "Database error while creating short URL"
                        (message_of deps storageError) |}, st')
      end
  end.
Proof. reflexivity. Qed.

End RoutesFacts.

(** X12. [POST /api/shorten] answers in one of three ways: 201 with the
    fields of the one document it appended ([clicks] 0, the date of the
    call, the [longUrl] of the validated body, [shortUrl] built from the
    request and the code); 400 with the validation message when the body
    does not validate; 500 with the fixed "Database error" message.  In
    the last two cases the collection is left as it was. *)
Theorem post_api_shorten_outcome
    {Body} (deps : Routes.Deps Body) env req body (st : Collection) :
  exists res st',
    Routes.post_api_shorten deps env req body st = (res, st') /\
    ((Routes.status res = 201 /\
      exists longUrl customAlias d,
        Routes.safeParse deps body = inr (longUrl, customAlias) /\
        st' = st ++ [d] /\
        IUrl.longUrl d = longUrl /\
        Routes.json res =
        Routes.Shortened (Js.parseInt (IUrl._id d)) (IUrl.shortCode d)
          longUrl (Routes.shortUrl req (IUrl.shortCode d)) (now env) 0) \/
     (Routes.status res = 400 /\ st' = st /\
      exists errorMessage,
        Routes.safeParse deps body = inl errorMessage /\
        Routes.json res = Routes.Message errorMessage) \/
     (Routes.status res = 500 /\ st' = st /\
      exists error,
        Routes.json res =
        Routes.Failure "Database error while creating short URL" error)).
Proof.
  rewrite post_api_shorten_run.
  destruct (Routes.safeParse deps body) as [msg | [longUrl customAlias]].
  - eexists. eexists. split; [reflexivity|]. right. left.
    split; [reflexivity|]. split; [reflexivity|].
    exists msg. split; reflexivity.
  - destruct (createShortUrl (Routes.schema deps) env longUrl customAlias st)
      as [[u|e] st'] eqn:E.
    + eexists. eexists. split; [reflexivity|]. left.
      split; [reflexivity|].
      apply createShortUrl_ok in E. destruct E as (-> & -> & _).
      exists longUrl, customAlias, (newUrl env longUrl customAlias).
      split; [reflexivity|]. split; [reflexivity|].
      split; reflexivity.
    + eexists. eexists. split; [reflexivity|]. right. right.
      apply createShortUrl_throw in E. subst st'.
      split; [reflexivity|]. split; [reflexivity|].
      eexists. reflexivity.
Qed.

(** X13. [POST /api/shorten] with a validated non-empty alias that is
    already the code of a document answers 500, not a conflict status,
    with the "Custom alias is already in use" text as [error], and writes
    nothing. *)
Theorem post_api_shorten_alias_taken
    {Body} (deps : Routes.Deps Body) env req body (st : Collection)
    longUrl alias :
  Routes.safeParse deps body = inr (longUrl, Some alias) ->
  alias <> "" ->
  In alias (map IUrl.shortCode st) ->
  Routes.post_api_shorten deps env req body st =
  ({| Routes.status := 500;
      Routes.json :=
        Routes.Failure "Database error while creating short URL"
          "Custom alias is already in use. Please choose a different one." |},
   st).
Proof.
  intros Hp Hne Hin. rewrite post_api_shorten_run, Hp.
  now rewrite createShortUrl_taken.
Qed.

Lemma post_api_shorten_alias_taken_witness :
  Routes.safeParse RoutesSample.deps ("https://example.org", Some "promo") =
  inr ("https://example.org", Some "promo") /\
  "promo" <> "" /\
  In "promo" (map IUrl.shortCode Sample.promo) /\
  Routes.status
    (fst (Routes.post_api_shorten RoutesSample.deps Sample.env2
            RoutesSample.req ("https://example.org", Some "promo")
            Sample.promo)) = 500.
Proof.
  assert (Hne : "promo" <> "") by discriminate.
  assert (Hin : In "promo" (map IUrl.shortCode Sample.promo)).
  { simpl. auto. }
  split; [reflexivity | split; [exact Hne | split; [exact Hin|]]].
  rewrite (post_api_shorten_alias_taken RoutesSample.deps Sample.env2
             RoutesSample.req ("https://example.org", Some "promo")
             Sample.promo "https://example.org" "promo" eq_refl Hne Hin).
  reflexivity.
Defined.

(** X14. Shorten, then follow the link.  When [POST /api/shorten] answers
    201 with code [c] and the code could not clash (unique index, or a
    non-empty alias in the validated body), [GET /api/redirect/c] answers
    200 with the [longUrl] of the validated body, which is also the
    [longUrl] of the 201 answer. *)
Theorem shorten_then_redirect
    {Body} (deps : Routes.Deps Body) env req body (st : Collection)
    res st' id c l s t k :
  Routes.post_api_shorten deps env req body st = (res, st') ->
  Routes.json res = Routes.Shortened id c l s t k ->
  unique_shortCode (Routes.schema deps) = true \/
  (exists longUrl alias,
      Routes.safeParse deps body = inr (longUrl, Some alias) /\
      alias <> "") ->
  (exists customAlias, Routes.safeParse deps body = inr (l, customAlias)) /\
  fst (Routes.get_api_redirect c st') =
  {| Routes.status := 200; Routes.json := Routes.LongUrl l |}.
Proof.
  intros H Hj Hc. rewrite post_api_shorten_run in H.
  destruct (Routes.safeParse deps body) as [msg | [longUrl customAlias]] eqn:P.
  - injection H as <- <-. discriminate.
  - destruct (createShortUrl (Routes.schema deps) env longUrl customAlias st)
      as [[u|e] st1] eqn:E.
    + injection H as <- <-. simpl in Hj. injection Hj as Hid Hcode Hl Hs Ht Hk.
      assert (Hfresh : unique_shortCode (Routes.schema deps) = true \/
                       Js.truthy customAlias = true \/
                       ~ In (Url.shortCode u) (map IUrl.shortCode st)).
      { destruct Hc as [Hu | (l' & alias & Hp & Hne)]; auto.
        right. left. injection Hp as _ ->. simpl.
        apply String.eqb_neq in Hne. now rewrite Hne. }
      assert (Hlook : getUrlByShortCode (Url.shortCode u) st1 =
                      (Ok (Some u), st1)).
      { rewrite getUrlByShortCode_run.
        now rewrite (find_created _ _ _ _ _ _ _ E Hfresh). }
      pose proof E as E'. apply createShortUrl_ok in E'.
      destruct E' as (Hu & _ & _).
      split.
      * exists customAlias. rewrite <- Hl, Hu. reflexivity.
      * subst c l. unfold Routes.get_api_redirect. rewrite Hlook.
        reflexivity.
    + injection H as <- <-. discriminate.
Qed.

Lemma shorten_then_redirect_witness :
  exists res st',
    Routes.post_api_shorten RoutesSample.deps Sample.env2 RoutesSample.req
      ("https://example.org", None) Sample.promo = (res, st') /\
    Routes.json res =
    Routes.Shortened Js.NaN "mmmmmm" "https://example.org"
      "https://giva.example/mmmmmm" 1700000005000 0 /\
    fst (Routes.get_api_redirect "mmmmmm" st') =
    {| Routes.status := 200;
       Routes.json := Routes.LongUrl "https://example.org" |}.
Proof.
  eexists. eexists.
  assert (H : Routes.post_api_shorten RoutesSample.deps Sample.env2
                RoutesSample.req ("https://example.org", None) Sample.promo =
              ({| Routes.status := 201;
                  Routes.json :=
                    Routes.Shortened Js.NaN "mmmmmm" "https://example.org"
                      "https://giva.example/mmmmmm" 1700000005000 0 |},
               Sample.two)) by reflexivity.
  split; [exact H|]. split; [reflexivity|].
  exact (proj2 (shorten_then_redirect RoutesSample.deps _ _ _ _ _ _ _ _ _ _
                  _ _ H eq_refl (or_introl eq_refl))).
Defined.

Lemma faulty_redirect_found shortCode (st : Collection) u :
  getUrlByShortCode shortCode st = (Ok (Some u), st) ->
  Faulty.get_api_redirect Answers shortCode st =
  ({| Routes.status := 200;
      Routes.json := Routes.LongUrl (Url.longUrl u) |},
   Some shortCode, st).
Proof.
  intro H. unfold Faulty.get_api_redirect, Faulty.getUrlByShortCode,
    Faulty.awaiting. now rewrite H.
Qed.

Lemma settle_applied shortCode (st : Collection) u :
  getUrlByShortCode shortCode st = (Ok (Some u), st) ->
  let st' := Faulty.settle Answers (Some shortCode) st in
  getUrlByShortCode shortCode st' = (Ok (Some (clicked 1 u)), st') /\
  forall other,
    other <> shortCode ->
    fst (getUrlByShortCode other st') = fst (getUrlByShortCode other st).
Proof.
  intros H st'.
  assert (Hst : st' = update_first shortCode st) by reflexivity.
  rewrite Hst. rewrite getUrlByShortCode_run in H.
  destruct (find (matches shortCode) st) as [d|] eqn:E; [|discriminate].
  simpl in H. injection H as <-. split.
  - now rewrite getUrlByShortCode_run, find_update_first, E.
  - intros other Hne. rewrite !getUrlByShortCode_run. simpl.
    now rewrite find_update_first_other.
Qed.

(** X15. [GET /api/redirect/:shortCode] writes nothing by the time it
    answers.  It answers 500 "Server error" when the lookup rejects, 404
    when the database answers and no document has the code, and otherwise
    200 with the [longUrl] the code resolves to, leaving one increment in
    flight.  When that increment settles applied, the code resolves to
    the same record with one more click and every other code resolves as
    before; when it settles rejected, the rejection is swallowed and the
    collection is as it was. *)
Theorem redirect_outcome shortCode (st : Collection) :
  (forall e,
      Faulty.get_api_redirect (Rejects e) shortCode st =
      ({| Routes.status := 500;
          Routes.json := Routes.Message "Server error" |}, None, st)) /\
  (~ In shortCode (map IUrl.shortCode st) ->
   Faulty.get_api_redirect Answers shortCode st =
   ({| Routes.status := 404;
       Routes.json := Routes.Message "URL not found" |}, None, st)) /\
  (forall u,
      getUrlByShortCode shortCode st = (Ok (Some u), st) ->
      Faulty.get_api_redirect Answers shortCode st =
      ({| Routes.status := 200;
          Routes.json := Routes.LongUrl (Url.longUrl u) |},
       Some shortCode, st) /\
      (forall e, Faulty.settle (Rejects e) (Some shortCode) st = st) /\
      let st' := Faulty.settle Answers (Some shortCode) st in
      getUrlByShortCode shortCode st' = (Ok (Some (clicked 1 u)), st') /\
      forall other,
        other <> shortCode ->
        fst (getUrlByShortCode other st') =
        fst (getUrlByShortCode other st)) /\
  (forall dbIncrement, Faulty.settle dbIncrement None st = st).
Proof.
  split; [reflexivity|]. split; [|split; [|reflexivity]].
  - intro Hn. apply find_none_iff in Hn.
    unfold Faulty.get_api_redirect, Faulty.getUrlByShortCode,
      Faulty.awaiting.
    now rewrite getUrlByShortCode_run, Hn.
  - intros u Hu. split; [now apply faulty_redirect_found|].
    split; [reflexivity|]. now apply settle_applied.
Qed.

Lemma redirect_outcome_witness :
  ~ In "Promo" (map IUrl.shortCode Sample.two) /\
  Routes.status
    (fst (fst (Faulty.get_api_redirect Answers "Promo" Sample.two))) = 404 /\
  exists u,
    getUrlByShortCode "promo" Sample.two = (Ok (Some u), Sample.two) /\
    Faulty.get_api_redirect Answers "promo" Sample.two =
    ({| Routes.status := 200;
        Routes.json := Routes.LongUrl "https://example.com" |},
     Some "promo", Sample.two) /\
    Faulty.settle (Rejects (Error "connection lost")) (Some "promo")
      Sample.two = Sample.two /\
    let st' := Faulty.settle Answers (Some "promo") Sample.two in
    getUrlByShortCode "promo" st' = (Ok (Some (clicked 1 u)), st').
Proof.
  assert (Hn : ~ In "Promo" (map IUrl.shortCode Sample.two)).
  { simpl. intros [H | [H | []]]; discriminate. }
  destruct (redirect_outcome "Promo" Sample.two) as (_ & H404 & _).
  destruct (redirect_outcome "promo" Sample.two) as (_ & _ & H200 & _).
  split; [exact Hn|]. split; [now rewrite (H404 Hn)|].
  eexists. split; [reflexivity|].
  destruct (H200 _ eq_refl) as (Hres & Hrej & Happ & _).
  split; [exact Hres|]. split; [apply Hrej | exact Happ].
Defined.

Lemma serve_resolves events shortCode : forall (st : Collection) pending u,
  getUrlByShortCode shortCode st = (Ok (Some u), st) ->
  exists st' remaining,
    Faulty.serve events shortCode st pending =
    (map (Faulty.answer u) (Faulty.lookups events), st', remaining) /\
    getUrlByShortCode shortCode st' =
    (Ok (Some (clicked (Z.of_nat (Faulty.applied events pending)) u)), st') /\
    (Faulty.applied events pending + remaining <=
     pending + List.length (filter Faulty.answered (Faulty.lookups events)))%nat.
Proof.
  induction events as [|ev events IH]; intros st pending u Hu.
  - exists st, pending. simpl. rewrite clicked_0. repeat split; auto. lia.
  - destruct ev as [[|e]|dbIncrement]; cbn [Faulty.serve Faulty.applied
                                             Faulty.lookups map filter
                                             Faulty.answered].
    + rewrite (faulty_redirect_found _ _ _ Hu).
      destruct (IH st (S pending) u Hu) as (st' & r & Hs & Hl & Hle).
      rewrite Hs. exists st', r. cbn [List.length].
      repeat split; auto. lia.
    + assert (Hr : Faulty.get_api_redirect (Rejects e) shortCode st =
                   ({| Routes.status := 500;
                       Routes.json := Routes.Message "Server error" |},
                    None, st)) by reflexivity.
      rewrite Hr.
      destruct (IH st pending u Hu) as (st' & r & Hs & Hl & Hle).
      rewrite Hs. exists st', r. repeat split; auto.
    + destruct pending as [|pending]; [now apply IH|].
      destruct dbIncrement as [|e].
      * destruct (settle_applied _ _ _ Hu) as [Hu' _].
        destruct (IH _ pending _ Hu') as (st' & r & Hs & Hl & Hle).
        exists st', r. rewrite Hs, Hl, clicked_clicked.
        split; [|split].
        -- reflexivity.
        -- do 4 f_equal. lia.
        -- lia.
      * assert (Hst : Faulty.settle (Rejects e) (Some shortCode) st = st)
          by reflexivity.
        rewrite Hst.
        destruct (IH st pending u Hu) as (st' & r & Hs & Hl & Hle).
        exists st', r. repeat split; auto. lia.
Qed.

(** X16. Requests of [GET /api/redirect/:shortCode] for a code that
    resolves to [u], with their un-awaited increments settling at any
    later moment.  Every request is answered 200 with the [longUrl] of
    [u] when its lookup is answered and 500 when it rejects, whether or
    not earlier increments have settled.  In the end the code resolves to
    [u] with [clicks] larger by exactly the number of increments that
    settled applied, which with those still in flight is at most the
    number of 200 answers. *)
Theorem redirects_clicks events shortCode (st : Collection) u :
  getUrlByShortCode shortCode st = (Ok (Some u), st) ->
  exists st' remaining,
    Faulty.serve events shortCode st 0 =
    (map (Faulty.answer u) (Faulty.lookups events), st', remaining) /\
    getUrlByShortCode shortCode st' =
    (Ok (Some (clicked (Z.of_nat (Faulty.applied events 0)) u)), st') /\
    (Faulty.applied events 0 + remaining <=
     List.length (filter Faulty.answered (Faulty.lookups events)))%nat.
Proof.
  intro Hu. destruct (serve_resolves events shortCode st 0 u Hu)
    as (st' & r & Hs & Hl & Hle).
  exists st', r. repeat split; auto.
Qed.

Lemma redirects_clicks_witness :
  let events :=
    [Faulty.Request Answers; Faulty.Request Answers;
     Faulty.Settles Answers; Faulty.Request (Rejects (Error "timeout"));
     Faulty.Settles (Rejects (Error "timeout")); Faulty.Request Answers] in
  exists u st',
    getUrlByShortCode "promo" Sample.two = (Ok (Some u), Sample.two) /\
    Faulty.serve events "promo" Sample.two 0 =
    (map (Faulty.answer u) [Answers; Answers; Rejects (Error "timeout");
                            Answers], st', 1%nat) /\
    getUrlByShortCode "promo" st' = (Ok (Some (clicked 1 u)), st').
Proof.
  intro events.
  destruct (redirects_clicks events "promo" Sample.two _ eq_refl)
    as (st' & r & Hs & Hl & _).
  eexists. exists st'. split; [reflexivity|].
  split; [|exact Hl].
  rewrite Hs. f_equal.
  assert (Hr : snd (Faulty.serve events "promo" Sample.two 0) = 1%nat)
    by reflexivity.
  rewrite Hs in Hr. exact Hr.
Defined.

Lemma map_fst_pair {A B} (f : A -> B) (l : list A) :
  map fst (map (fun a => (a, f a)) l) = l.
Proof. induction l; simpl; congruence. Qed.

(** When the database answers, the recent list is the [min(10, size)]
    most recent records, most recent first, each with its [shortUrl]. *)
Lemma get_api_urls_recent_outcome req (st : Collection) :
  exists urls,
    Routes.get_api_urls_recent req st =
    ({| Routes.status := 200; Routes.json := Routes.Urls urls |}, st) /\
    List.length urls = Nat.min 10 (List.length st) /\
    StronglySorted newer_or_equal (map fst urls) /\
    (exists older,
        Permutation (map fst urls ++ older) (map toUrl st) /\
        StronglySorted newer_or_equal (map fst urls ++ older)) /\
    Forall (fun entry =>
              snd entry = Routes.shortUrl req (Url.shortCode (fst entry)))
           urls.
Proof.
  unfold Routes.get_api_urls_recent. rewrite getRecentUrls_run.
  eexists. split; [reflexivity|].
  rewrite map_fst_pair.
  assert (Hlen : List.length (sort_desc st) = List.length st)
    by apply Permutation_length, sort_desc_perm.
  assert (Hlim : limit 10 (sort_desc st) = firstn 10 (sort_desc st))
    by reflexivity.
  split; [|split; [|split]].
  - rewrite !length_map, Hlim. now rewrite length_firstn, Hlen.
  - apply toUrl_sorted, limit_sorted, sort_desc_sorted.
  - exists (map toUrl (skipn 10 (sort_desc st))).
    rewrite Hlim, <- map_app, firstn_skipn. split.
    + apply Permutation_map, sort_desc_perm.
    + apply toUrl_sorted, sort_desc_sorted.
  - apply Forall_map, Forall_forall. intros u _. reflexivity.
Qed.

(** X17. [GET /api/urls/recent] writes nothing.  It answers 500 "Failed to
    fetch recent URLs" when the connection or the query rejects.  When the
    database answers, it answers 200 with the [min(10, size)] most recent
    records, most recent first, each a record of the collection paired
    with the [shortUrl] built from the request and its own code. *)
Theorem recent_outcome req (st : Collection) :
  (forall e,
      Faulty.get_api_urls_recent (Rejects e) req st =
      ({| Routes.status := 500;
          Routes.json := Routes.Message "Failed to fetch recent URLs" |},
       st)) /\
  exists urls,
    Faulty.get_api_urls_recent Answers req st =
    ({| Routes.status := 200; Routes.json := Routes.Urls urls |}, st) /\
    List.length urls = Nat.min 10 (List.length st) /\
    StronglySorted newer_or_equal (map fst urls) /\
    (exists older,
        Permutation (map fst urls ++ older) (map toUrl st) /\
        StronglySorted newer_or_equal (map fst urls ++ older)) /\
    Forall (fun entry =>
              snd entry = Routes.shortUrl req (Url.shortCode (fst entry)))
           urls.
Proof.
  split; [reflexivity|]. apply get_api_urls_recent_outcome.
Qed.
